(** * optimize_images.py: image optimisation batch job

    A shallow embedding of [optimize_images.py] and the proofs of its
    specification.  The file follows the script top-down: the settings,
    the path filter and the two locators, the backup step, the WebP
    conversion, the HTML patcher with its regular expression, and [main].

    Paths are kept relative to [ROOT] (a list of path components), the
    project tree is a finite map from paths to nodes, and every function
    that touches the tree runs in a small state-and-exception monad. *)

From Stdlib Require Import ZArith Strings.Byte Strings.Ascii Strings.String.
From stdpp Require Import gmap strings list fin_maps.

Local Open Scope string_scope.
Local Open Scope Z_scope.
Local Open Scope list_scope.

(** ** Settings *)

Definition QUALITY : Z := 82.
Definition BACKUP_DIR : string := "backup_images".
(** [IMG_EXTS] is a Python set; it is iterated once, to build the pattern,
    in an order Python does not fix.  The list below is one such order;
    [sub_order_irrelevant] shows that any other gives the same rewriter. *)
Definition IMG_EXTS : list string := [".jpg"; ".jpeg"; ".png"].
Definition SKIP_DIRS : gset string :=
  {[ BACKUP_DIR; ".git"; "node_modules"; "__pycache__" ]}.

(** ** Markup text

    A Python [str] is a sequence of Unicode code points. *)

Definition char := N.
Abbreviation text := (list char).

Definition chr (a : ascii) : char := N_of_ascii a.
Definition str (s : string) : text := chr <$> list_ascii_of_string s.

Definition dquote : char := 34%N.
Definition squote : char := 39%N.

(** The character class of the two quote characters, double and single. *)
Definition is_quote (c : char) : bool := (c =? dquote)%N || (c =? squote)%N.

(** [re.IGNORECASE] on a literal: the subject character matches when it is
    the pattern letter in either case.  The pattern only has the letters
    e, g, j, n, p and the dot, none of which has a further Unicode case
    variant, so lowering A-Z is all there is to it. *)
Definition lower (c : char) : char :=
  if ((65 <=? c) && (c <=? 90))%N then (c + 32)%N else c.
Definition ci_eq (pc c : char) : bool := (lower c =? lower pc)%N.

(** ** The pattern of [patch_html_files]

    Four groups: a quote; a lazy, non-empty run of characters that are
    not quotes; one of the escaped extensions of [IMG_EXTS], joined by
    the alternation bar; a quote.  It is matched by backtracking the way
    [re] does: groups left to right, the lazy body shortest first, the
    alternatives in the order they are written. *)

Record Match := mkMatch {
  group1 : char;      (* opening quote *)
  group2 : text;      (* path body *)
  group3 : text;      (* extension, as found in the subject *)
  group4 : char;      (* closing quote *)
  after  : text       (* subject from [m.end()] on *)
}.

(** A literal under IGNORECASE at the head of the subject. *)
Fixpoint match_lit (lit t : text) : option (text * text) :=
  match lit, t with
  | [], _ => Some ([], t)
  | _ :: _, [] => None
  | pc :: lit', c :: t' =>
      if ci_eq pc c then
        match match_lit lit' t' with
        | Some (g, r) => Some (c :: g, r)
        | None => None
        end
      else None
  end.

(** Group 3 then group 4: each alternative in turn; one that matches but
    is not followed by a quote is given up for the next. *)
Fixpoint match_tail (exts : list string) (t : text) : option (text * char * text) :=
  match exts with
  | [] => None
  | e :: exts' =>
      match match_lit (str e) t with
      | Some (g3, q :: r) =>
          if is_quote q then Some (g3, q, r) else match_tail exts' t
      | _ => match_tail exts' t
      end
  end.

(** Group 2, lazy and non-empty: take one character, try the rest of the pattern,
    and only on failure take one more. *)
Fixpoint match_body (exts : list string) (t : text) : option (text * text * char * text) :=
  match t with
  | [] => None
  | c :: t' =>
      if is_quote c then None
      else match match_tail exts t' with
           | Some (g3, g4, r) => Some ([c], g3, g4, r)
           | None =>
               match match_body exts t' with
               | Some (g2, g3, g4, r) => Some (c :: g2, g3, g4, r)
               | None => None
               end
           end
  end.

(** [pattern.match] at the head of the subject. *)
Definition match_at (exts : list string) (t : text) : option Match :=
  match t with
  | [] => None
  | q :: t' =>
      if is_quote q then
        match match_body exts t' with
        | Some (g2, g3, g4, r) => Some (mkMatch q g2 g3 g4 r)
        | None => None
        end
      else None
  end.

(** The replacement callback:
    [lambda m: m.group(1) + m.group(2) + ".webp" + m.group(4)]. *)
Definition repl (m : Match) : text :=
  group1 m :: group2 m ++ str ".webp" ++ [group4 m].

(** [pattern.sub(repl, text)]: scan from the left; where the pattern
    matches, emit the replacement and resume after the match; elsewhere
    copy one character.  A match is never empty, so the remaining subject
    always shrinks and its length is enough fuel. *)
Fixpoint sub_fuel (exts : list string) (n : nat) (t : text) : text :=
  match n with
  | O => t
  | S n' =>
      match match_at exts t with
      | Some m => repl m ++ sub_fuel exts n' (after m)
      | None =>
          match t with
          | [] => []
          | c :: t' => c :: sub_fuel exts n' t'
          end
      end
  end.

Definition sub_with (exts : list string) (t : text) : text :=
  sub_fuel exts (length t) t.

Definition sub : text -> text := sub_with IMG_EXTS.

Arguments str : simpl never.
Arguments repl : simpl never.


(** ** Paths

    A path is the list of its components below [ROOT]; [[]] is [ROOT]
    itself, and [p.relative_to(ROOT)] is [p]. *)

Abbreviation path := (list string).

Definition name (p : path) : string := default "" (last p).
Definition parent (p : path) : path := removelast p.

Definition chars (s : string) : list ascii := list_ascii_of_string s.
Definition of_chars (l : list ascii) : string := string_of_list_ascii l.

(** [s.rfind(".")] on the characters of a name. *)
Fixpoint rfind_dot (l : list ascii) : option nat :=
  match l with
  | [] => None
  | c :: l' =>
      match rfind_dot l' with
      | Some i => Some (S i)
      | None => if bool_decide (c = "."%char) then Some O else None
      end
  end.

(** [PurePath.suffix]: the name from its last dot on, unless that dot
    is the first or the last character of the name. *)
Definition suffix (n : string) : string :=
  match rfind_dot (chars n) with
  | Some i =>
      if bool_decide (0 < i < length (chars n) - 1)%nat
      then of_chars (drop i (chars n)) else ""
  | None => ""
  end.

(** [str.lower] on a name; names are taken as byte strings, where only
    A to Z have a lower-case form. *)
Definition lower_ascii (c : ascii) : ascii :=
  let n := nat_of_ascii c in
  if bool_decide (65 ≤ n ≤ 90)%nat then ascii_of_nat (n + 32) else c.
Definition lower_str (s : string) : string := of_chars (lower_ascii <$> chars s).

(** [PurePath.with_suffix(suf)]; raises [ValueError] on an empty name. *)
Definition with_suffix (p : path) (suf : string) : option path :=
  let n := name p in
  if bool_decide (n = "") then None
  else
    let old := suffix n in
    let stem := of_chars (take (length (chars n) - length (chars old)) (chars n)) in
    Some (parent p ++ [stem +:+ suf]).

(** [str(p)] followed by [.replace] of every backslash by a slash. *)
Definition str_path (p : path) : string :=
  match p with [] => "." | _ => String.concat "/" p end.
Definition to_slashes (s : string) : string :=
  of_chars ((fun c => if bool_decide (c = "\"%char) then "/"%char else c) <$> chars s).

(** [should_skip]: some component of the path is in [SKIP_DIRS]. *)
Definition should_skip (p : path) : bool :=
  existsb (fun part => bool_decide (part ∈ SKIP_DIRS)) p.

(** ** The project tree *)

Inductive node :=
  | File (data : list byte) (mtime : Z)
  | Dir.

Abbreviation tree := (gmap path node).

#[global] Instance byte_eq_dec' : EqDecision byte := byte_eq_dec.
#[global] Instance node_eq_dec : EqDecision node.
Proof. solve_decision. Defined.

(** [ROOT] always is a directory; it is not a key of the map. *)
Definition node_at (t : tree) (p : path) : option node :=
  match p with [] => Some Dir | _ => t !! p end.

Definition is_file (t : tree) (p : path) : bool :=
  match node_at t p with Some (File _ _) => true | _ => false end.
Definition is_dir (t : tree) (p : path) : bool :=
  match node_at t p with Some Dir => true | _ => false end.

(** Every entry sits in a directory: what a tree on disk looks like. *)
Definition well_formed (t : tree) : bool :=
  forallb (fun p => match p with [] => false | _ => is_dir t (parent p) end)
          (map_to_list t).*1.

(** [ROOT.rglob(star)]: every entry below [ROOT], in the order the map
    lists them (the directory order of the platform is not fixed
    either). *)
Definition rglob (t : tree) : list path :=
  List.filter (fun p => negb (bool_decide (p = []))) (map_to_list t).*1.

(** A name that the glob pattern [*.html] matches. *)
Definition is_html_name (n : string) : bool :=
  bool_decide (drop (length (chars n) - 5) (chars n) = chars ".html").

(** ** Effects *)

Inductive exn :=
  | FileNotFoundError
  | FileExistsError
  | IsADirectoryError
  | NotADirectoryError
  | SameFileError
  | ValueError
  | ZeroDivisionError
  | CodecError           (* whatever Pillow raises on an image *)
  | SystemExit (code : Z).

#[global] Instance exn_eq_dec : EqDecision exn.
Proof. solve_decision. Defined.

(** [except Exception] does not catch [SystemExit]. *)
Definition is_Exception (e : exn) : bool :=
  match e with SystemExit _ => false | _ => true end.

(** Calls on the file system, as the script issues them. *)
Inductive event :=
  | EvStat (p : path)
  | EvExists (p : path)
  | EvMkdir (p : path)
  | EvCopy (src dst : path)
  | EvOpenImage (p : path)
  | EvSaveImage (p : path)
  | EvUnlink (p : path)
  | EvReadText (p : path)
  | EvWriteText (p : path).

#[global] Instance event_eq_dec : EqDecision event.
Proof. solve_decision. Defined.

(** Lines printed; the formatted numbers are left out. *)
Inductive message :=
  | MsgNoPillow
  | MsgNoImages
  | MsgFound (n : nat)
  | MsgError (n : string) (e : exn)
  | MsgConverted (n : string) (size_before size_after : Z)
  | MsgPatching
  | MsgHtmlUpdated (p : path)
  | MsgSummary (total_before total_after : Z).

(** The state of a run.  [console] and [history] grow at the head.
    [history] pairs every file-system call with the tree it found. *)
Record world := mkWorld {
  files   : tree;
  clock   : Z;
  console : list message;
  history : list (event * tree)
}.

Inductive outcome (A : Type) :=
  | Ret (a : A)
  | Raise (e : exn).
Arguments Ret {A} a.
Arguments Raise {A} e.

Definition M (A : Type) : Type := world -> outcome A * world.

Definition ret {A} (a : A) : M A := fun w => (Ret a, w).
Definition raise {A} (e : exn) : M A := fun w => (Raise e, w).
Definition bind {A B} (m : M A) (k : A -> M B) : M B :=
  fun w => match m w with
           | (Ret a, w') => k a w'
           | (Raise e, w') => (Raise e, w')
           end.

Declare Scope M_scope.
Delimit Scope M_scope with M.
Bind Scope M_scope with M.
Notation "x <- m ;; k" := (bind m (fun x => k))
  (at level 100, m at next level, right associativity) : M_scope.
Notation "m ;;; k" := (bind m (fun _ => k))
  (at level 100, right associativity) : M_scope.
Local Open Scope M_scope.

(** [try: m except Exception as e: h e]. *)
Definition try_except {A} (m : M A) (h : exn -> M A) : M A :=
  fun w => match m w with
           | (Raise e, w') => if is_Exception e then h e w' else (Raise e, w')
           | r => r
           end.

Definition get_files : M tree := fun w => (Ret (files w), w).
Definition put_files (t : tree) : M unit :=
  fun w => (Ret tt, mkWorld t (clock w) (console w) (history w)).
Definition now : M Z := fun w => (Ret (clock w), w).
Definition tick : M unit :=
  fun w => (Ret tt, mkWorld (files w) (clock w + 1) (console w) (history w)).
Definition print (msg : message) : M unit :=
  fun w => (Ret tt, mkWorld (files w) (clock w) (msg :: console w) (history w)).
Definition record (e : event) : M unit :=
  fun w => (Ret tt, mkWorld (files w) (clock w) (console w) ((e, files w) :: history w)).

(** ** File-system calls *)

(** [Path.exists]. *)
Definition exists_ (p : path) : M bool :=
  record (EvExists p) ;;;
  t <- get_files ;;
  ret (bool_decide (is_Some (node_at t p))).

(** [os.mkdir]: the parent must be a directory and the path free. *)
Definition os_mkdir (p : path) : M unit :=
  record (EvMkdir p) ;;;
  t <- get_files ;;
  match p with
  | [] => raise FileExistsError
  | _ =>
      match node_at t (parent p) with
      | None => raise FileNotFoundError
      | Some (File _ _) => raise NotADirectoryError
      | Some Dir =>
          match t !! p with
          | Some _ => raise FileExistsError
          | None => put_files (<[p := Dir]> t)
          end
      end
  end.

(** [Path.mkdir(parents=False, exist_ok=True)]: a missing parent is an
    error, an existing directory is not. *)
Definition mkdir_exist_ok (p : path) : M unit :=
  fun w =>
    match os_mkdir p w with
    | (Raise FileNotFoundError, w') => (Raise FileNotFoundError, w')
    | (Raise e, w') => if is_dir (files w') p then (Ret tt, w') else (Raise e, w')
    | r => r
    end.

(** [Path.mkdir(parents=True, exist_ok=True)], by recursion on the path
    read from its last component: on [FileNotFoundError] make the parent
    first and then the directory itself. *)
Fixpoint mkdir_parents_rev (rp : list string) : M unit :=
  fun w =>
    match os_mkdir (reverse rp) w with
    | (Raise FileNotFoundError, w') =>
        match rp with
        | [] => (Raise FileNotFoundError, w')
        | _ :: rp' => (mkdir_parents_rev rp' ;;; mkdir_exist_ok (reverse rp)) w'
        end
    | (Raise e, w') =>
        if is_dir (files w') (reverse rp) then (Ret tt, w') else (Raise e, w')
    | r => r
    end.

Definition mkdir_parents (p : path) : M unit := mkdir_parents_rev (reverse p).

(** Reading a whole file. *)
Definition read_bytes (p : path) : M (list byte) :=
  t <- get_files ;;
  match node_at t p with
  | None => raise FileNotFoundError
  | Some Dir => raise IsADirectoryError
  | Some (File data _) => ret data
  end.

(** Creating or truncating a file and writing it; the new file is
    stamped with the clock, which then moves on. *)
Definition write_bytes (p : path) (data : list byte) : M unit :=
  t <- get_files ;;
  match p with
  | [] => raise IsADirectoryError
  | _ =>
      match node_at t (parent p) with
      | None => raise FileNotFoundError
      | Some (File _ _) => raise NotADirectoryError
      | Some Dir =>
          match t !! p with
          | Some Dir => raise IsADirectoryError
          | _ =>
              time <- now ;;
              put_files (<[p := File data time]> t) ;;;
              tick
          end
      end
  end.

(** [shutil.copy2]: a destination that is a directory stands for the
    file of the same name inside it; the copy carries the data and the
    modification time of the source. *)
Definition copy2 (src dst : path) : M unit :=
  record (EvCopy src dst) ;;;
  t <- get_files ;;
  let target := if is_dir t dst then dst ++ [name src] else dst in
  match node_at t src with
  | None => raise FileNotFoundError
  | Some Dir => raise IsADirectoryError
  | Some (File data mtime) =>
      if bool_decide (src = target) then raise SameFileError
      else
        match target with
        | [] => raise IsADirectoryError
        | _ =>
            match node_at t (parent target) with
            | None => raise FileNotFoundError
            | Some (File _ _) => raise NotADirectoryError
            | Some Dir =>
                match t !! target with
                | Some Dir => raise IsADirectoryError
                | _ => put_files (<[target := File data mtime]> t)
                end
            end
        end
  end.

(** [Path.unlink]. *)
Definition unlink (p : path) : M unit :=
  record (EvUnlink p) ;;;
  t <- get_files ;;
  match node_at t p with
  | None => raise FileNotFoundError
  | Some Dir => raise IsADirectoryError
  | Some (File _ _) => put_files (delete p t)
  end.

(** ** The script *)

Section Script.

(** The collaborators the script imports.  [webp] is Pillow on the
    bytes of an image: open, convert the mode if need be, encode at
    [QUALITY]; [None] when it raises.  [decode] and [encode] are the
    text layer of [read_text] and [write_text].  [dir_size] is what
    [st_size] is for a directory. *)
Variable webp : Z -> list byte -> option (list byte).
Variable decode : list byte -> text.
Variable encode : text -> list byte.
Variable dir_size : Z.

(** [Path.stat().st_size]. *)
Definition stat_size (p : path) : M Z :=
  record (EvStat p) ;;;
  t <- get_files ;;
  match node_at t p with
  | None => raise FileNotFoundError
  | Some Dir => ret dir_size
  | Some (File data _) => ret (Z.of_nat (length data))
  end.

Definition read_text (p : path) : M text :=
  record (EvReadText p) ;;;
  data <- read_bytes p ;;
  ret (decode data).

Definition write_text (p : path) (s : text) : M unit :=
  record (EvWriteText p) ;;;
  write_bytes p (encode s).

Definition is_image_name (n : string) : bool :=
  bool_decide (lower_str (suffix n) ∈ IMG_EXTS).

Definition find_images : M (list path) :=
  t <- get_files ;;
  ret (List.filter
         (fun p => is_file t p && is_image_name (name p) && negb (should_skip p))
         (rglob t)).

Definition find_html_files : M (list path) :=
  t <- get_files ;;
  ret (List.filter
         (fun p => is_html_name (name p) && negb (should_skip p))
         (rglob t)).

Definition backup_path (src : path) : path := BACKUP_DIR :: src.

Definition backup (src : path) : M unit :=
  let dst := backup_path src in
  mkdir_parents (parent dst) ;;;
  present <- exists_ dst ;;
  if present then ret tt else copy2 src dst.

Definition convert_to_webp (src : path) : M path :=
  match with_suffix src ".webp" with
  | None => raise ValueError
  | Some dst =>
      record (EvOpenImage src) ;;;
      data <- read_bytes src ;;
      match webp QUALITY data with
      | None => raise CodecError
      | Some out =>
          record (EvSaveImage dst) ;;;
          write_bytes dst out ;;;
          ret dst
      end
  end.

Fixpoint patch_html_files (html_files : list path) (renamed : gmap string string) : M unit :=
  match html_files with
  | [] => ret tt
  | html_path :: more =>
      s <- read_text html_path ;;
      let new_text := sub s in
      (if bool_decide (new_text = s) then ret tt
       else write_text html_path new_text ;;; print (MsgHtmlUpdated html_path)) ;;;
      patch_html_files more renamed
  end.

(** What the loop of [main] carries from one image to the next. *)
Record totals := mkTotals {
  total_before : Z;
  total_after  : Z;
  renamed      : gmap string string
}.

(** One turn of the loop [for src in images]. *)
Definition process_image (acc : totals) (src : path) : M totals :=
  size_before <- stat_size src ;;
  backup src ;;;
  converted <- try_except (dst <- convert_to_webp src ;; ret (Some dst))
                          (fun e => print (MsgError (name src) e) ;;; ret None) ;;
  match converted with
  | None => ret acc
  | Some dst =>
      size_after <- stat_size dst ;;
      (if bool_decide (size_before = 0) then raise ZeroDivisionError else ret tt) ;;;
      unlink src ;;;
      let rel_src := to_slashes (str_path src) in
      let rel_dst := to_slashes (str_path dst) in
      print (MsgConverted (name src) size_before size_after) ;;;
      ret (mkTotals (total_before acc + size_before)
                    (total_after acc + size_after)
                    (<[rel_src := rel_dst]> (renamed acc)))
  end.

Fixpoint process_images (acc : totals) (images : list path) : M totals :=
  match images with
  | [] => ret acc
  | src :: more => acc' <- process_image acc src ;; process_images acc' more
  end.

Definition main : M unit :=
  images <- find_images ;;
  match images with
  | [] => print MsgNoImages
  | _ =>
      print (MsgFound (length images)) ;;;
      acc <- process_images (mkTotals 0 0 ∅) images ;;
      html_files <- find_html_files ;;
      (if negb (bool_decide (html_files = [])) && negb (bool_decide (renamed acc = ∅))
       then print MsgPatching ;;; patch_html_files html_files (renamed acc)
       else ret tt) ;;;
      print (MsgSummary (total_before acc) (total_after acc))
  end.


End Script.

Arguments parent : simpl never.
Arguments backup_path : simpl never.
Arguments name : simpl never.
(** ** The specification's vocabulary for the rewriter *)

(** A character that is not a quote. *)
Definition plain (c : char) : Prop := is_quote c = false.

(** [x] is one of the extensions [exts], in any mix of cases. *)
Definition old_ext_in (exts : list string) (x : text) : Prop :=
  ∃ e, e ∈ exts ∧ lower <$> x = lower <$> str e.
Definition old_ext : text -> Prop := old_ext_in IMG_EXTS.

(** The shape the pattern looks for: a quote, a body of one or more
    plain characters, an old extension, a quote. *)
Record quoted_ref (exts : list string) (q1 : char) (body ext : text) (q2 : char) : Prop :=
  mkQuotedRef {
    qr_open  : is_quote q1 = true;
    qr_some  : body ≠ [];
    qr_plain : Forall plain body;
    qr_ext   : old_ext_in exts ext;
    qr_close : is_quote q2 = true
  }.

(** A text that begins with such a reference. *)
Definition starts_ref (t : text) : Prop :=
  ∃ q1 body ext q2 rest,
    t = q1 :: body ++ ext ++ q2 :: rest ∧ quoted_ref IMG_EXTS q1 body ext q2.

(** The rewriter as the specification words it, read left to right:
    a reference at the head has its extension replaced and the scan
    resumes after its closing quote; any other character is copied. *)
Inductive rewrites : text -> text -> Prop :=
  | rw_nil : rewrites [] []
  | rw_ref q1 body ext q2 rest rest' :
      quoted_ref IMG_EXTS q1 body ext q2 ->
      rewrites rest rest' ->
      rewrites (q1 :: body ++ ext ++ q2 :: rest)
               (q1 :: body ++ str ".webp" ++ q2 :: rest')
  | rw_copy c t t' :
      ¬ starts_ref (c :: t) ->
      rewrites t t' ->
      rewrites (c :: t) (c :: t').

(** A text with no reference anywhere in it. *)
Definition no_ref (t : text) : Prop :=
  ∀ pre q1 body ext q2 post,
    t = pre ++ q1 :: body ++ ext ++ q2 :: post -> ¬ quoted_ref IMG_EXTS q1 body ext q2.

(** ** Texts cut at their quotes *)

Fixpoint join (segs : list (char * text)) : text :=
  match segs with
  | [] => []
  | (q, s) :: r => q :: s ++ join r
  end.

Fixpoint cut (t : text) : text * list (char * text) :=
  match t with
  | [] => ([], [])
  | c :: t' =>
      let '(s0, segs) := cut t' in
      if is_quote c then ([], (c, s0) :: segs) else (c :: s0, segs)
  end.

Definition seg_ok (x : char * text) : Prop := is_quote x.1 = true ∧ Forall plain x.2.

Definition retarget (s : text) : option text :=
  match match_at IMG_EXTS (dquote :: s ++ [dquote]) with
  | Some m => Some (group2 m ++ str ".webp")
  | None => None
  end.

Fixpoint pass (segs : list (char * text)) : list (char * text) :=
  match segs with
  | [] => []
  | (q, s) :: tl =>
      match tl with
      | [] => [(q, s)]
      | y :: rest =>
          match retarget s with
          | Some s' => (q, s') :: y :: pass rest
          | None => (q, s) :: pass tl
          end
      end
  end.

Fixpoint spaced (may_be_hot : bool) (segs : list (char * text)) : Prop :=
  match segs with
  | (_, s) :: ((_ :: _) as tl) =>
      match retarget s with
      | None => spaced true tl
      | Some _ => may_be_hot = true ∧ spaced false tl
      end
  | _ => True
  end.

Fixpoint quiet (segs : list (char * text)) : Prop :=
  match segs with
  | (_, s) :: ((_ :: _) as tl) => retarget s = None ∧ quiet tl
  | _ => True
  end.

(** No reference of the text begins at the closing quote of another. *)
Definition no_shared_quote (t : text) : Prop :=
  ∀ pre q1 body ext q2 body' ext' q3 post,
    t = pre ++ q1 :: body ++ ext ++ q2 :: body' ++ ext' ++ q3 :: post ->
    quoted_ref IMG_EXTS q1 body ext q2 ->
    quoted_ref IMG_EXTS q2 body' ext' q3 -> False.

(** Both conditions, decided by running the pattern at every position. *)
Fixpoint has_ref (t : text) : bool :=
  match t with
  | [] => false
  | _ :: t' => bool_decide (is_Some (match_at IMG_EXTS t)) || has_ref t'
  end.

Fixpoint shares_quote (t : text) : bool :=
  match t with
  | [] => false
  | _ :: t' =>
      match match_at IMG_EXTS t with
      | Some m => bool_decide (is_Some (match_at IMG_EXTS (group4 m :: after m)))
      | None => false
      end || shares_quote t'
  end.

(** ** Vocabulary for the file-system claims *)

(** What [find_images] and [find_html_files] return on a tree. *)
Definition images_of (t : tree) : list path :=
  List.filter (fun p => is_file t p && is_image_name (name p) && negb (should_skip p))
              (rglob t).
Definition html_files_of (t : tree) : list path :=
  List.filter (fun p => is_html_name (name p) && negb (should_skip p)) (rglob t).

(** The paths a call reads, transcodes, deletes or rewrites. *)
Definition touches (e : event) : list path :=
  match e with
  | EvStat p | EvOpenImage p | EvSaveImage p | EvUnlink p
  | EvReadText p | EvWriteText p => [p]
  | EvCopy src _ => [src]
  | EvMkdir _ | EvExists _ => []
  end.

(** A call leaves the excluded directories alone. *)
Definition spares_skipped (et : event * tree) : Prop :=
  ∀ x, x ∈ touches et.1 -> should_skip x = false.


Definition push (e : event) (w : world) : world :=
  mkWorld (files w) (clock w) (console w) ((e, files w) :: history w).
Definition with_files (t : tree) (w : world) : world :=
  mkWorld t (clock w) (console w) (history w).


Definition calls_between (w w' : world) (evs : list (event * tree)) : Prop :=
  history w' = evs ++ history w.


(** What [mkdir] can have done on the way to [p]: nothing but new
    directories along [p]. *)
Record mkdir_frame (p : path) (w w' : world) : Prop := {
  mk_clock : clock w' = clock w;
  mk_console : console w' = console w;
  mk_calls : ∃ evs, calls_between w w' evs ∧ Forall (fun et => ∃ x, et.1 = EvMkdir x) evs;
  mk_grow : files w ⊆ files w';
  mk_new : ∀ x, files w !! x = None -> is_Some (files w' !! x) ->
                x `prefix_of` p ∧ files w' !! x = Some Dir
}.


(** The directory [p] is there, below something. *)
Definition dir_in_place (t : tree) (p : path) : Prop :=
  is_dir t p = true ∧ (p ≠ [] -> is_Some (node_at t (parent p))).


Definition backup_event (src : path) (e : event) : Prop :=
  match e with
  | EvMkdir _ | EvExists _ => True
  | EvCopy s d => s = src ∧ d = backup_path src
  | _ => False
  end.


(** What [backup] can have done: calls of its own, and new entries on
    the way to the backup path. *)
Record backup_frame (src : path) (w w' : world) : Prop := {
  bk_clock : clock w' = clock w;
  bk_console : console w' = console w;
  bk_calls : ∃ evs, calls_between w w' evs ∧ Forall (fun et => backup_event src et.1) evs;
  bk_grow : files w ⊆ files w';
  bk_new : ∀ x, files w !! x = None -> is_Some (files w' !! x) ->
                x `prefix_of` backup_path src
}.


(** What a [backup] that returns has achieved. *)
Record backup_done (src : path) (w w' : world) : Prop := {
  bk_there : is_Some (files w' !! backup_path src);
  bk_dir : dir_in_place (files w') (parent (backup_path src));
  bk_copy : files w !! backup_path src = None ->
            ∃ data mtime, files w !! src = Some (File data mtime) ∧
                          files w' !! backup_path src = Some (File data mtime)
}.


Definition printed (msg : message) (w : world) : world :=
  mkWorld (files w) (clock w) (msg :: console w) (history w).


(** The calls one turn of the loop may make for [src], and what the
    tree looks like when the original is unlinked; [t0] is the tree the
    turn started from. *)
Definition image_call (src : path) (t0 : tree) (et : event * tree) : Prop :=
  match et.1 with
  | EvStat p => p = src ∨ with_suffix src ".webp" = Some p
  | EvMkdir _ | EvExists _ => True
  | EvCopy s d => s = src ∧ d = backup_path src
  | EvOpenImage p => p = src
  | EvSaveImage p => with_suffix src ".webp" = Some p
  | EvUnlink p =>
      p = src ∧ is_Some (et.2 !! backup_path src) ∧
      (t0 !! backup_path src = None -> is_image_name (name src) = true ->
       ∃ data mtime, et.2 !! src = Some (File data mtime) ∧
                     et.2 !! backup_path src = Some (File data mtime))
  | EvReadText _ | EvWriteText _ => False
  end.


Record image_frame (src : path) (w w' : world) : Prop := {
  im_calls : ∃ evs, calls_between w w' evs ∧ Forall (image_call src (files w)) evs;
  im_new : ∀ x, files w !! x = None -> is_Some (files w' !! x) ->
                x `prefix_of` backup_path src ∨ with_suffix src ".webp" = Some x
}.


(** What [convert_to_webp] does, case by case. *)
Inductive convert_result (webp : Z -> list byte -> option (list byte))
    (src : path) (w : world) : outcome path -> world -> Prop :=
  | conv_no_name :
      with_suffix src ".webp" = None ->
      convert_result webp src w (Raise ValueError) w
  | conv_unreadable dst e :
      with_suffix src ".webp" = Some dst ->
      read_bytes src w = (Raise e, w) ->
      convert_result webp src w (Raise e) (push (EvOpenImage src) w)
  | conv_codec dst data mtime :
      with_suffix src ".webp" = Some dst ->
      files w !! src = Some (File data mtime) ->
      webp QUALITY data = None ->
      convert_result webp src w (Raise CodecError) (push (EvOpenImage src) w)
  | conv_unwritable dst data mtime out e :
      with_suffix src ".webp" = Some dst ->
      files w !! src = Some (File data mtime) ->
      webp QUALITY data = Some out ->
      write_bytes dst out w = (Raise e, w) ->
      convert_result webp src w (Raise e)
        (push (EvSaveImage dst) (push (EvOpenImage src) w))
  | conv_done dst data mtime out :
      with_suffix src ".webp" = Some dst ->
      files w !! src = Some (File data mtime) ->
      webp QUALITY data = Some out ->
      convert_result webp src w (Ret dst)
        (mkWorld (<[dst := File out (clock w)]> (files w)) (clock w + 1) (console w)
                 ((EvSaveImage dst, files w) :: (EvOpenImage src, files w) :: history w)).


(** ** Sample inputs *)

(** Markup written with a backquote where the double quote goes. *)
Definition markup (s : string) : text :=
  (fun c => if (c =? 96)%N then dquote else c) <$> str s.

(** A text layer for the samples: one byte, one character. *)
Definition decode_bytes (b : list byte) : text := Byte.to_N <$> b.
Definition encode_bytes (s : text) : list byte :=
  (fun c => default x3f (Byte.of_N c)) <$> s.

(** Two stand-ins for Pillow: one that takes every image, one that
    takes none. *)
Definition webp_takes_all (_ : Z) (data : list byte) : option (list byte) := Some data.
Definition webp_takes_none (_ : Z) (_ : list byte) : option (list byte) := None.

Definition fresh_run (t : tree) : world := mkWorld t 1000 [] [].

(** A small site: a page and the picture it shows. *)
Definition page : text := markup "<img src=`img/a.PNG`>".
Definition site : tree :=
  <[ ["index.html"] := File (encode_bytes page) 7 ]>
  (<[ ["img"; "a.PNG"] := File [x89; x50; x4e; x47] 5 ]>
  (<[ ["img"] := Dir ]> ∅)).

(** A site with nothing to convert. *)
Definition plain_page : text := markup "<a href=`about.html`>about</a>".
Definition site_without_images : tree :=
  <[ ["index.html"] := File (encode_bytes plain_page) 7 ]> ∅.

(** A second run, after the picture was replaced by another one: the
    backup of the first run is still there. *)
Definition site_run_again : tree :=
  <[ ["backup_images"; "a.png"] := File [x01] 3 ]>
  (<[ ["a.png"] := File [x02] 5 ]>
  (<[ ["backup_images"] := Dir ]> ∅)).

(** ** What a run may do to the tree *)

(** The entries the script writes over: the WebP sibling of one of the
    images [imgs], or an entry named like a markup file; neither lies
    in an excluded directory. *)
Definition rewritable (imgs : list path) (x : path) : Prop :=
  should_skip x = false ∧
  ((∃ src, src ∈ imgs ∧ with_suffix src ".webp" = Some x) ∨ is_html_name (name x) = true).

(** One change of the tree: a new entry inside an excluded directory
    (the backup), a file written at a rewritable path, or one of the
    images removed.  New entries go into a directory, and no directory
    is written over. *)
Inductive tree_step (imgs : list path) : tree -> tree -> Prop :=
  | ts_add t p n :
      p ≠ [] -> is_dir t (parent p) = true -> t !! p = None ->
      should_skip p = true ->
      tree_step imgs t (<[p := n]> t)
  | ts_write t p data mtime :
      p ≠ [] -> is_dir t (parent p) = true -> t !! p ≠ Some Dir ->
      rewritable imgs p ->
      tree_step imgs t (<[p := File data mtime]> t)
  | ts_unlink t p data mtime :
      t !! p = Some (File data mtime) -> p ∈ imgs ->
      tree_step imgs t (delete p t).

(** How an entry can differ after such changes. *)
Inductive entry_change (imgs : list path) (t t' : tree) (x : path) : Prop :=
  | ec_same : t' !! x = t !! x -> entry_change imgs t t' x
  | ec_added : should_skip x = true -> t !! x = None -> entry_change imgs t t' x
  | ec_removed data mtime :
      x ∈ imgs -> t !! x = Some (File data mtime) -> t' !! x = None ->
      entry_change imgs t t' x
  | ec_written data mtime :
      rewritable imgs x -> t !! x ≠ Some Dir -> t' !! x = Some (File data mtime) ->
      entry_change imgs t t' x.

(** The sizes on the lines printed for the converted images, summed. *)
Fixpoint sum_before (c : list message) : Z :=
  match c with
  | [] => 0
  | MsgConverted _ size_before _ :: c' => size_before + sum_before c'
  | _ :: c' => sum_before c'
  end.
Fixpoint sum_after (c : list message) : Z :=
  match c with
  | [] => 0
  | MsgConverted _ _ size_after :: c' => size_after + sum_after c'
  | _ :: c' => sum_after c'
  end.

Definition is_error (msg : message) : bool :=
  match msg with MsgError _ _ => true | _ => false end.

(** The small site with a directory named like a page. *)
Definition site_with_html_directory : tree := <[ ["old.html"] := Dir ]> site.

(** A tree with an empty file named like an image. *)
Definition site_empty_image : tree := <[ ["e.png"] := File [] 1 ]> ∅.
(** * Proofs *)

(** ** The pattern *)

Lemma match_lit_sound lit t g r :
  match_lit lit t = Some (g, r) -> t = g ++ r ∧ lower <$> g = lower <$> lit.
Proof.
  revert t g r. induction lit as [|pc lit IH]; intros t g r; simpl.
  - intros [= <- <-]. done.
  - destruct t as [|c t]; [done|].
    unfold ci_eq. destruct (N.eqb_spec (lower c) (lower pc)) as [Hc|Hc]; [|done].
    destruct (match_lit lit t) as [[g' r']|] eqn:Hm; [|done].
    intros [= <- <-]. apply IH in Hm as [-> Hg']. rewrite !fmap_cons. by rewrite Hc, Hg'.
Qed.

Lemma match_lit_complete lit g r :
  lower <$> g = lower <$> lit -> match_lit lit (g ++ r) = Some (g, r).
Proof.
  revert g. induction lit as [|pc lit IH]; intros g Hg.
  - apply fmap_nil_inv in Hg as ->. done.
  - destruct g as [|c g]; [done|]. rewrite !fmap_cons in Hg. injection Hg as Hc Hg.
    simpl. unfold ci_eq. rewrite Hc, N.eqb_refl. by rewrite (IH g Hg).
Qed.
Lemma match_tail_sound exts t g3 q r :
  match_tail exts t = Some (g3, q, r) ->
  t = g3 ++ q :: r ∧ is_quote q = true ∧ old_ext_in exts g3.
Proof.
  induction exts as [|e exts IH]; simpl; [done|].
  destruct (match_lit (str e) t) as [[g [|c r']]|] eqn:Hm.
  - intros H. destruct (IH H) as (? & ? & e' & ? & ?).
    split_and!; [done..|]. exists e'. split; [by right|done].
  - destruct (is_quote c) eqn:Hq.
    + intros [= <- <- <-]. apply match_lit_sound in Hm as [-> Hg].
      split_and!; [done..|]. exists e. split; [by left|done].
    + intros H. destruct (IH H) as (? & ? & e' & ? & ?).
      split_and!; [done..|]. exists e'. split; [by right|done].
  - intros H. destruct (IH H) as (? & ? & e' & ? & ?).
    split_and!; [done..|]. exists e'. split; [by right|done].
Qed.

Lemma match_tail_total exts x q r :
  old_ext_in exts x -> is_quote q = true ->
  is_Some (match_tail exts (x ++ q :: r)).
Proof.
  intros (e & He & Hx) Hq. induction exts as [|e' exts IH].
  - by apply elem_of_nil in He.
  - simpl. apply elem_of_cons in He as [<-|He].
    + rewrite (match_lit_complete _ _ _ Hx), Hq. eauto.
    + destruct (match_lit (str e') (x ++ q :: r)) as [[g [|c r']]|]; [by apply IH| |by apply IH].
      destruct (is_quote c); [eauto|by apply IH].
Qed.

Lemma match_body_sound exts t g2 g3 g4 r :
  match_body exts t = Some (g2, g3, g4, r) ->
  t = g2 ++ g3 ++ g4 :: r ∧ g2 ≠ [] ∧ Forall plain g2 ∧
  old_ext_in exts g3 ∧ is_quote g4 = true.
Proof.
  revert g2. induction t as [|c t IH]; intros g2; simpl; [done|].
  destruct (is_quote c) eqn:Hc; [done|].
  destruct (match_tail exts t) as [[[x q] r']|] eqn:Ht.
  - intros [= <- <- <- <-]. apply match_tail_sound in Ht as (-> & ? & ?).
    split_and!; [done|done|by repeat constructor|done|done].
  - destruct (match_body exts t) as [[[[b x] q] r']|] eqn:Hb; [|done].
    intros [= <- <- <- <-]. destruct (IH _ eq_refl) as (-> & ? & ? & ? & ?).
    split_and!; [done|done|by constructor|done|done].
Qed.

Lemma match_body_total exts body x q r :
  body ≠ [] -> Forall plain body -> old_ext_in exts x -> is_quote q = true ->
  is_Some (match_body exts (body ++ x ++ q :: r)).
Proof.
  intros Hne Hpl Hx Hq. induction body as [|c body IH]; [done|].
  apply Forall_cons in Hpl as [Hc Hpl]. simpl. rewrite Hc.
  destruct (match_tail exts (body ++ x ++ q :: r)) as [[[? ?] ?]|] eqn:Ht; [eauto|].
  destruct body as [|c' body].
  - simpl in Ht. destruct (match_tail_total exts x q r Hx Hq) as [? Hs]. congruence.
  - destruct IH as [[[[? ?] ?] ?] ->]; [done|done|eauto].
Qed.

(** The first quote of a text is where it is. *)
Lemma first_quote_unique (s s' : text) q q' r r' :
  Forall plain s -> Forall plain s' -> is_quote q = true -> is_quote q' = true ->
  s ++ q :: r = s' ++ q' :: r' -> s = s' ∧ q = q' ∧ r = r'.
Proof.
  intros Hs. revert s'. induction Hs as [|c s Hc Hs IH]; intros s' Hs' Hq Hq' E.
  - destruct Hs' as [|c' s' Hc' Hs']; simplify_eq/=; [done|]. unfold plain in *. congruence.
  - destruct Hs' as [|c' s' Hc' Hs']; simplify_eq/=.
    + unfold plain in *. congruence.
    + destruct (IH s' Hs' Hq Hq' H0) as (-> & -> & ->). done.
Qed.
Lemma lower_quote c : is_quote c = true -> lower c = c.
Proof.
  unfold is_quote, dquote, squote, lower. intros H.
  apply orb_true_iff in H as [H|H]; apply N.eqb_eq in H; subst; reflexivity.
Qed.

Lemma plain_lower c : plain (lower c) -> plain c.
Proof.
  unfold plain. intros H. destruct (is_quote c) eqn:Hq; [|done].
  by rewrite (lower_quote c Hq), Hq in H.
Qed.

(** What an old extension looks like: a dot, a letter, two or three more
    characters, the last of them a g in either case. *)
Lemma old_ext_inv x :
  old_ext x ->
  ∃ a b tl z, x = a :: b :: tl ∧ lower a = 46%N ∧ lower b ≠ 46%N ∧
    (length tl = 2 ∨ length tl = 3)%nat ∧ last x = Some z ∧ lower z = 103%N ∧
    Forall plain x.
Proof.
  intros (e & He & Hx). unfold IMG_EXTS in He.
  assert (∀ c k, lower c = k -> is_quote k = false -> plain c) as Hpl.
  { intros c k <- Hk. by apply plain_lower. }
  repeat (apply elem_of_cons in He as [->|He]); [..|by apply elem_of_nil in He].
  - change (lower <$> str ".jpg") with [46;106;112;103]%N in Hx.
    do 4 (destruct x as [|? x]; [discriminate Hx|]).
    destruct x; [|discriminate Hx]. rewrite !fmap_cons in Hx.
    injection Hx as ?; subst.
    eexists _, _, _, _; split_and!; [reflexivity|done|congruence|by left|reflexivity|done|].
    repeat constructor; eapply Hpl; eauto.
  - change (lower <$> str ".jpeg") with [46;106;112;101;103]%N in Hx.
    do 5 (destruct x as [|? x]; [discriminate Hx|]).
    destruct x; [|discriminate Hx]. rewrite !fmap_cons in Hx.
    injection Hx as ?; subst.
    eexists _, _, _, _; split_and!; [reflexivity|done|congruence|by right|reflexivity|done|].
    repeat constructor; eapply Hpl; eauto.
  - change (lower <$> str ".png") with [46;112;110;103]%N in Hx.
    do 4 (destruct x as [|? x]; [discriminate Hx|]).
    destruct x; [|discriminate Hx]. rewrite !fmap_cons in Hx.
    injection Hx as ?; subst.
    eexists _, _, _, _; split_and!; [reflexivity|done|congruence|by left|reflexivity|done|].
    repeat constructor; eapply Hpl; eauto.
Qed.

Lemma old_ext_plain x : old_ext x -> Forall plain x.
Proof. intros H. by destruct (old_ext_inv x H) as (? & ? & ? & ? & ? & ? & ? & ? & ? & ? & ?). Qed.

(** No old extension is the tail of another, so a segment ends in an
    old extension in one way at most. *)
Lemma old_ext_split_unique (body body' ext ext' : text) :
  old_ext ext -> old_ext ext' -> body ++ ext = body' ++ ext' ->
  body = body' ∧ ext = ext'.
Proof.
  intros H H' E.
  destruct (old_ext_inv _ H) as (a & b & tl & z & -> & Ha & Hb & Hl & _).
  destruct (old_ext_inv _ H') as (a' & b' & tl' & z' & -> & Ha' & Hb' & Hl' & _).
  destruct (decide (length tl = length tl')) as [Hlen|Hlen].
  - apply app_inj_2 in E; [done|]. simpl. congruence.
  - exfalso. destruct Hl as [Hl|Hl], Hl' as [Hl'|Hl']; try congruence.
    + change (body' ++ a' :: b' :: tl') with (body' ++ [a'] ++ b' :: tl') in E.
      rewrite (assoc (++)) in E.
      apply app_inj_2 in E as [_ E]; [|simpl; lia]. congruence.
    + change (body ++ a :: b :: tl) with (body ++ [a] ++ b :: tl) in E.
      rewrite (assoc (++)) in E.
      apply app_inj_2 in E as [_ E]; [|simpl; lia]. congruence.
Qed.

(** [.webp] is not an old extension, whatever precedes it. *)
Lemma webp_not_old (body body' ext' : text) :
  old_ext ext' -> body ++ str ".webp" ≠ body' ++ ext'.
Proof.
  intros H' E.
  destruct (old_ext_inv _ H') as (a & b & tl & z & Hx & _ & _ & _ & Hlast & Hz & _).
  assert (last (body ++ str ".webp") = Some 112%N) as L1.
  { change (str ".webp") with ([46;119;101;98]%N ++ [112%N]).
    by rewrite (assoc (++)), last_snoc. }
  assert (last (body' ++ ext') = Some z) as L2.
  { rewrite Hx in *. rewrite last_app, Hlast. done. }
  rewrite E, L2 in L1. injection L1 as ->. done.
Qed.

Section Pattern.
Variable exts : list string.
Hypothesis exts_IMG_EXTS : ∀ e, e ∈ exts ↔ e ∈ IMG_EXTS.

Lemma old_ext_in_exts x : old_ext_in exts x ↔ old_ext x.
Proof.
  unfold old_ext, old_ext_in.
  split; intros (e & He & Hx); exists e; (split; [by apply exts_IMG_EXTS|done]).
Qed.

Lemma match_at_sound t m :
  match_at exts t = Some m ->
  t = group1 m :: group2 m ++ group3 m ++ group4 m :: after m ∧
  quoted_ref IMG_EXTS (group1 m) (group2 m) (group3 m) (group4 m).
Proof.
  destruct t as [|c t]; simpl; [done|].
  destruct (is_quote c) eqn:Hc; [|done].
  destruct (match_body exts t) as [[[[g2 g3] g4] r]|] eqn:Hb; [|done].
  intros [= <-]. simpl.
  apply match_body_sound in Hb as (-> & ? & ? & ? & ?).
  split; [done|]. constructor; try done. by apply old_ext_in_exts.
Qed.

Lemma match_at_complete q1 body ext q2 rest :
  quoted_ref IMG_EXTS q1 body ext q2 ->
  match_at exts (q1 :: body ++ ext ++ q2 :: rest) = Some (mkMatch q1 body ext q2 rest).
Proof.
  intros [Ho Hne Hpl Hx Hc]. simpl. rewrite Ho.
  destruct (match_body_total exts body ext q2 rest) as [[[[g2 g3] g4] r] Hb];
    [done|done|by apply old_ext_in_exts|done|].
  rewrite Hb.
  apply match_body_sound in Hb as (E & ? & ? & Hx' & ?).
  apply old_ext_in_exts in Hx'.
  rewrite !(assoc (++) _ _ (_ :: _)) in E.
  apply first_quote_unique in E as (E & -> & ->);
    [|apply Forall_app; split; [done|by apply old_ext_plain]..|done|done].
  by destruct (old_ext_split_unique _ _ _ _ Hx Hx' E) as [<- <-].
Qed.
End Pattern.
(** ** The substitution *)

Lemma match_at_shorter exts t m :
  match_at exts t = Some m -> (length (after m) < length t)%nat.
Proof.
  destruct t as [|c t]; simpl; [done|].
  destruct (is_quote c); [|done].
  destruct (match_body exts t) as [[[[g2 g3] g4] r]|] eqn:Hb; [|done].
  intros [= <-]. simpl. apply match_body_sound in Hb as (-> & _).
  rewrite !length_app. simpl. lia.
Qed.

Lemma sub_fuel_enough exts n m t :
  (length t ≤ n)%nat -> (length t ≤ m)%nat -> sub_fuel exts n t = sub_fuel exts m t.
Proof.
  revert m t. induction n as [|n IH]; intros m t Hn Hm.
  - destruct t; [|simpl in Hn; lia]. destruct m; done.
  - destruct m as [|m].
    + destruct t; [|simpl in Hm; lia]. done.
    + cbn [sub_fuel]. destruct (match_at exts t) as [mt|] eqn:Hmt.
      * pose proof (match_at_shorter _ _ _ Hmt). f_equal. apply IH; lia.
      * destruct t as [|c t]; [done|]. simpl in *. f_equal. apply IH; lia.
Qed.

(** The equation [sub] obeys, free of fuel. *)
Lemma sub_with_unfold exts t :
  sub_with exts t =
    match match_at exts t with
    | Some m => repl m ++ sub_with exts (after m)
    | None => match t with [] => [] | c :: t' => c :: sub_with exts t' end
    end.
Proof.
  unfold sub_with. destruct t as [|c t]; [done|].
  change (length (c :: t)) with (S (length t)). cbn [sub_fuel].
  destruct (match_at exts (c :: t)) as [m|] eqn:Hm; [|done].
  pose proof (match_at_shorter _ _ _ Hm) as Hlt. simpl in Hlt.
  f_equal. apply sub_fuel_enough; lia.
Qed.

Lemma sub_unfold t :
  sub t =
    match match_at IMG_EXTS t with
    | Some m => repl m ++ sub (after m)
    | None => match t with [] => [] | c :: t' => c :: sub t' end
    end.
Proof. apply sub_with_unfold. Qed.

Lemma match_at_order exts t :
  (∀ e, e ∈ exts ↔ e ∈ IMG_EXTS) -> match_at exts t = match_at IMG_EXTS t.
Proof.
  intros Hex.
  destruct (match_at exts t) as [m|] eqn:H1.
  - apply (match_at_sound exts Hex) in H1 as [Ht Hq]. rewrite Ht.
    rewrite (match_at_complete IMG_EXTS); [by destruct m|done|done].
  - destruct (match_at IMG_EXTS t) as [m|] eqn:H2; [|done].
    apply (match_at_sound IMG_EXTS) in H2 as [Ht Hq]; [|done].
    rewrite Ht, (match_at_complete exts Hex) in H1; done.
Qed.

(** The order in which Python lists the set [IMG_EXTS] when it builds
    the pattern makes no difference. *)
Lemma sub_order_irrelevant exts t :
  exts ≡ₚ IMG_EXTS -> sub_with exts t = sub t.
Proof.
  intros Hp.
  assert (∀ e, e ∈ exts ↔ e ∈ IMG_EXTS) as Hex by (intros e; by rewrite Hp).
  unfold sub, sub_with. generalize (length t) as n. intros n. revert t.
  induction n as [|n IH]; intros t; [done|]. simpl.
  rewrite (match_at_order exts t Hex).
  destruct (match_at IMG_EXTS t); [by rewrite IH|].
  destruct t; [done|]. by rewrite IH.
Qed.

Lemma match_at_None_iff t :
  match_at IMG_EXTS t = None ↔ ¬ starts_ref t.
Proof.
  split.
  - intros Hn (q1 & body & ext & q2 & rest & -> & Hq).
    by rewrite (match_at_complete IMG_EXTS) in Hn.
  - intros Hno. destruct (match_at IMG_EXTS t) as [m|] eqn:Hm; [|done].
    apply (match_at_sound IMG_EXTS) in Hm as [Ht Hq]; [|done].
    exfalso. apply Hno. by exists (group1 m), (group2 m), (group3 m), (group4 m), (after m).
Qed.

Lemma rewrites_sub t : rewrites t (sub t).
Proof.
  remember (length t) as n eqn:Hn. revert t Hn.
  induction n as [n IH] using lt_wf_ind. intros t ->.
  rewrite sub_unfold. destruct (match_at IMG_EXTS t) as [m|] eqn:Hm.
  - pose proof (match_at_shorter _ _ _ Hm) as Hlt.
    apply (match_at_sound IMG_EXTS) in Hm as [Ht Hq]; [|done].
    rewrite Ht at 1. unfold repl. rewrite <- !app_comm_cons, <- !(assoc (++)).
    simpl. apply rw_ref; [done|]. by eapply IH.
  - destruct t as [|c t]; [constructor|].
    apply rw_copy; [by apply match_at_None_iff|]. eapply IH; [|done]. simpl; lia.
Qed.

Lemma rewrites_fun t t' : rewrites t t' -> t' = sub t.
Proof.
  induction 1 as [|q1 body ext q2 rest rest' Hq _ IH|c t t' Hno _ IH].
  - done.
  - rewrite sub_unfold, (match_at_complete IMG_EXTS) by done.
    unfold repl. simpl. rewrite <- !(assoc (++)). simpl. by rewrite IH.
  - rewrite sub_unfold. apply match_at_None_iff in Hno. by rewrite Hno, IH.
Qed.

Lemma no_ref_tail c t : no_ref (c :: t) -> no_ref t.
Proof. intros H pre q1 body ext q2 post ->. by apply (H (c :: pre) q1 body ext q2 post). Qed.

Lemma sub_no_ref t : no_ref t -> sub t = t.
Proof.
  induction t as [|c t IH]; intros Hno; [done|].
  rewrite sub_unfold.
  assert (match_at IMG_EXTS (c :: t) = None) as ->.
  { apply match_at_None_iff. intros (q1 & body & ext & q2 & rest & E & Hq).
    by apply (Hno [] q1 body ext q2 rest). }
  f_equal. apply IH. by eapply no_ref_tail.
Qed.

Lemma cut_join t : t = (cut t).1 ++ join (cut t).2.
Proof.
  induction t as [|c t IH]; [done|]. simpl.
  destruct (cut t) as [s0 segs]. simpl in IH.
  destruct (is_quote c); simpl; by rewrite IH at 1.
Qed.

Lemma cut_ok t : Forall plain (cut t).1 ∧ Forall seg_ok (cut t).2.
Proof.
  induction t as [|c t [IH1 IH2]]; [by split; constructor|]. simpl.
  destruct (cut t) as [s0 segs]. simpl in *.
  destruct (is_quote c) eqn:Hc; simpl; split; try done.
  - by constructor.
  - by constructor.
Qed.

Lemma sub_plain_prefix s t : Forall plain s -> sub (s ++ t) = s ++ sub t.
Proof.
  induction 1 as [|c s Hc _ IH]; [done|].
  rewrite <- app_comm_cons, sub_unfold. unfold match_at. rewrite Hc. by rewrite IH.
Qed.

Lemma sub_plain s : Forall plain s -> sub s = s.
Proof.
  intros Hs. rewrite <- (app_nil_r s) at 1.
  rewrite sub_plain_prefix by done. change (sub []) with (@nil char).
  by rewrite app_nil_r.
Qed.

Lemma match_at_unclosed q s : Forall plain s -> match_at IMG_EXTS (q :: s) = None.
Proof.
  intros Hs. destruct (match_at IMG_EXTS (q :: s)) as [m|] eqn:Hm; [|done].
  apply (match_at_sound IMG_EXTS) in Hm as [Ht [_ _ _ _ Hc]]; [|done].
  injection Ht as _ ->. rewrite !Forall_app, Forall_cons in Hs.
  destruct Hs as (_ & _ & Hp & _). unfold plain in Hp. congruence.
Qed.

(** A segment between two quotes either is not a reference, or is one in
    exactly one way; what follows the closing quote plays no part. *)
Lemma match_at_segment q s q2 rest :
  is_quote q = true -> Forall plain s -> is_quote q2 = true ->
  (match_at IMG_EXTS (q :: s ++ q2 :: rest) = None ∧ retarget s = None) ∨
  (∃ body ext, s = body ++ ext ∧ quoted_ref IMG_EXTS q body ext q2 ∧
     match_at IMG_EXTS (q :: s ++ q2 :: rest) = Some (mkMatch q body ext q2 rest) ∧
     retarget s = Some (body ++ str ".webp")).
Proof.
  intros Hq Hs Hq2.
  assert (∀ qa qb r m, is_quote qa = true -> is_quote qb = true ->
            match_at IMG_EXTS (qa :: s ++ qb :: r) = Some m ->
            ∃ body ext, s = body ++ ext ∧ body ≠ [] ∧ Forall plain body ∧ old_ext ext) as Hinv.
  { intros qa qb r m Ha Hb Hm.
    apply (match_at_sound IMG_EXTS) in Hm as [Ht [_ ? ? Hx ?]]; [|done].
    injection Ht as _ Ht. rewrite (assoc (++)) in Ht.
    apply first_quote_unique in Ht as (-> & _ & _);
      [eauto 10|done|apply Forall_app; split; [done|by apply old_ext_plain]|done|done]. }
  destruct (match_at IMG_EXTS (q :: s ++ q2 :: rest)) as [m|] eqn:Hm.
  - right. destruct (Hinv _ _ _ _ Hq Hq2 Hm) as (body & ext & -> & Hne & Hb & Hx).
    exists body, ext. rewrite <- (assoc (++)) in Hm.
    rewrite (match_at_complete IMG_EXTS) in Hm by done. injection Hm as <-.
    split_and!; [done|done|done|]. unfold retarget.
    rewrite <- (assoc (++)), (match_at_complete IMG_EXTS); done.
  - left. split; [done|]. unfold retarget.
    destruct (match_at IMG_EXTS (dquote :: s ++ [dquote])) as [m|] eqn:Hm'; [|done].
    destruct (Hinv dquote dquote [] m eq_refl eq_refl Hm') as (body & ext & -> & Hne & Hb & Hx).
    rewrite <- (assoc (++)), (match_at_complete IMG_EXTS) in Hm; done.
Qed.

Lemma retarget_Some s s' :
  Forall plain s -> retarget s = Some s' -> Forall plain s' ∧ retarget s' = None.
Proof.
  intros Hs Hr.
  destruct (match_at_segment dquote s dquote [] eq_refl Hs eq_refl)
    as [[_ Hn]|(body & ext & -> & [_ Hne Hb Hx _] & _ & Hr')]; [congruence|].
  rewrite Hr' in Hr. injection Hr as <-.
  assert (Forall plain (body ++ str ".webp")) as Hp.
  { apply Forall_app; split; [done|]. repeat constructor. }
  split; [done|].
  destruct (match_at_segment dquote _ dquote [] eq_refl Hp eq_refl)
    as [[_ Hn]|(body' & ext' & E & [_ _ _ Hx' _] & _)]; [done|].
  by apply webp_not_old in E.
Qed.

Lemma join_cons q s r : join ((q, s) :: r) = q :: s ++ join r.
Proof. done. Qed.

Lemma pass_cons2 q s y rest :
  pass ((q, s) :: y :: rest) =
    match retarget s with
    | Some s' => (q, s') :: y :: pass rest
    | None => (q, s) :: pass (y :: rest)
    end.
Proof. done. Qed.

Lemma spaced_cons2 b q s y rest :
  spaced b ((q, s) :: y :: rest) =
    match retarget s with
    | None => spaced true (y :: rest)
    | Some _ => b = true ∧ spaced false (y :: rest)
    end.
Proof. done. Qed.

Lemma pass_ok segs : Forall seg_ok segs -> Forall seg_ok (pass segs).
Proof.
  remember (length segs) as n eqn:Hn. revert segs Hn.
  induction n as [n IH] using lt_wf_ind. intros segs -> Hok.
  destruct segs as [|[q s] [|y rest]]; [done..|]. rewrite pass_cons2.
  apply Forall_cons in Hok as [[Hq Hs] Hok]. simpl in Hq, Hs.
  destruct (retarget s) as [s'|] eqn:Hr.
  - apply Forall_cons in Hok as [Hy Hok].
    destruct (retarget_Some _ _ Hs Hr) as [Hs' _].
    apply Forall_cons; split; [done|]. apply Forall_cons; split; [done|].
    eapply IH; [|done..]. simpl; lia.
  - apply Forall_cons; split; [done|]. eapply IH; [|done..]. simpl; lia.
Qed.

Lemma sub_join segs : Forall seg_ok segs -> sub (join segs) = join (pass segs).
Proof.
  remember (length segs) as n eqn:Hn. revert segs Hn.
  induction n as [n IH] using lt_wf_ind. intros segs -> Hok.
  destruct segs as [|[q s] [|[q2 s2] rest]]; [done|..].
  - apply Forall_cons in Hok as [[Hq Hs] _]. simpl in Hq, Hs. cbn [join pass].
    rewrite app_nil_r, sub_unfold, match_at_unclosed by done.
    by rewrite sub_plain.
  - apply Forall_cons in Hok as [[Hq Hs] Hok].
    pose proof Hok as Hok'.
    apply Forall_cons in Hok as [[Hq2 Hs2] Hok]. simpl in Hq, Hs, Hq2, Hs2.
    rewrite pass_cons2. cbn [join]. rewrite sub_unfold.
    destruct (match_at_segment q s q2 (s2 ++ join rest) Hq Hs Hq2)
      as [[-> ->]|(body & ext & -> & _ & -> & ->)].
    + rewrite sub_plain_prefix by done. rewrite (join_cons q s). do 2 f_equal.
      change (q2 :: s2 ++ join rest) with (join ((q2, s2) :: rest)).
      eapply IH; [|done..]. simpl; lia.
    + assert (sub (join rest) = join (pass rest)) as E
        by (eapply IH; [|done..]; simpl; lia).
      unfold repl. cbn [group1 group2 group3 group4 after].
      rewrite !join_cons. rewrite sub_plain_prefix by done. rewrite E.
      rewrite <- !app_comm_cons, <- !(assoc (++)). done.
Qed.

Lemma spaced_weaken segs : spaced false segs -> spaced true segs.
Proof.
  destruct segs as [|[q s] [|y rest]]; [done..|]. simpl.
  destruct (retarget s); [|done]. by intros [? _].
Qed.

Lemma pass_spaced segs : Forall seg_ok segs -> spaced false (pass segs).
Proof.
  remember (length segs) as n eqn:Hn. revert segs Hn.
  induction n as [n IH] using lt_wf_ind. intros segs -> Hok.
  destruct segs as [|[q s] [|[q2 s2] rest]]; [done..|].
  apply Forall_cons in Hok as [[Hq Hs] Hok]. simpl in Hq, Hs.
  pose proof Hok as Hok'. apply Forall_cons in Hok' as [[Hq2 Hs2] Hrest].
  rewrite pass_cons2. destruct (retarget s) as [s'|] eqn:Hr.
  - destruct (retarget_Some _ _ Hs Hr) as [_ Hc].
    assert (spaced false (pass rest)) as Hsp by (eapply IH; [|done..]; simpl; lia).
    rewrite spaced_cons2, Hc.
    destruct (pass rest) as [|z rest'] eqn:Hp; [done|].
    rewrite spaced_cons2. destruct (retarget s2); [done|]. by apply spaced_weaken.
  - assert (spaced false (pass ((q2, s2) :: rest))) as Hsp
      by (eapply IH; [|done..]; simpl; lia).
    destruct (pass ((q2, s2) :: rest)) as [|z rest'] eqn:Hp; [done|].
    destruct z as [qz sz]. rewrite spaced_cons2, Hr. by apply spaced_weaken.
Qed.

Lemma pass_nil segs : pass segs = [] -> segs = [].
Proof.
  destruct segs as [|[q s] [|y rest]]; [done..|]. simpl. by destruct (retarget s).
Qed.

Lemma quiet_cons q s tl : retarget s = None -> quiet tl -> quiet ((q, s) :: tl).
Proof. intros. destruct tl; done. Qed.

Lemma spaced_pass_quiet segs : Forall seg_ok segs -> spaced true segs -> quiet (pass segs).
Proof.
  remember (length segs) as n eqn:Hn. revert segs Hn.
  induction n as [n IH] using lt_wf_ind. intros segs -> Hok Hsp.
  destruct segs as [|[q s] [|[q2 s2] rest]]; [done..|].
  apply Forall_cons in Hok as [[Hq Hs] Hok]. simpl in Hq, Hs.
  pose proof Hok as Hok'. apply Forall_cons in Hok' as [[Hq2 Hs2] Hrest].
  rewrite pass_cons2. rewrite spaced_cons2 in Hsp. destruct (retarget s) as [s'|] eqn:Hr.
  - destruct Hsp as [_ Hsp]. destruct (retarget_Some _ _ Hs Hr) as [_ Hc].
    apply quiet_cons; [done|].
    destruct rest as [|z rest']; [done|].
    rewrite spaced_cons2 in Hsp. destruct (retarget s2) eqn:Hr2; [by destruct Hsp|].
    apply quiet_cons; [done|]. eapply IH; [|done..]. simpl; lia.
  - apply quiet_cons; [done|]. eapply IH; [|done..]. simpl; lia.
Qed.

Lemma quiet_pass segs : quiet segs -> pass segs = segs.
Proof.
  induction segs as [|[q s] tl IH]; [done|].
  destruct tl as [|y rest]; [done|]. intros [Hc Hq].
  destruct y as [q2 s2]. rewrite pass_cons2, Hc. by rewrite IH.
Qed.

Lemma sub_cut t : sub t = (cut t).1 ++ join (pass (cut t).2).
Proof.
  destruct (cut_ok t) as [H1 H2].
  rewrite (cut_join t) at 1. by rewrite sub_plain_prefix, sub_join.
Qed.

Lemma sub_sub_fixed t : sub (sub (sub t)) = sub (sub t).
Proof.
  destruct (cut_ok t) as [H1 H2].
  pose proof (pass_ok _ H2) as H3. pose proof (pass_ok _ H3) as H4.
  rewrite (sub_cut t).
  rewrite !sub_plain_prefix, !sub_join by done.
  do 2 f_equal. apply quiet_pass, spaced_pass_quiet; [done|].
  by apply spaced_weaken, pass_spaced.
Qed.

Lemma has_ref_false t : has_ref t = false -> no_ref t.
Proof.
  intros H pre. revert t H. induction pre as [|c pre IH]; intros t H q1 body ext q2 post -> Hq.
  - cbn [app has_ref] in H. rewrite (match_at_complete IMG_EXTS) in H by done.
    rewrite bool_decide_true in H by eauto. done.
  - cbn [app has_ref] in H. apply orb_false_iff in H as [_ H].
    by eapply IH.
Qed.

Lemma shares_quote_false t : shares_quote t = false -> no_shared_quote t.
Proof.
  intros H pre. revert t H.
  induction pre as [|c pre IH]; intros t H q1 body ext q2 body' ext' q3 post -> Hq Hq'.
  - cbn [app shares_quote] in H. rewrite (match_at_complete IMG_EXTS) in H by done.
    cbn [group4 after] in H.
    rewrite (match_at_complete IMG_EXTS) in H by done.
    rewrite bool_decide_true in H by eauto. done.
  - cbn [app shares_quote] in H. apply orb_false_iff in H as [_ H].
    by eapply IH.
Qed.

Lemma no_shared_quote_spaced pre segs :
  Forall seg_ok segs -> no_shared_quote (pre ++ join segs) -> spaced true segs.
Proof.
  remember (length segs) as n eqn:Hn. revert pre segs Hn.
  induction n as [n IH] using lt_wf_ind. intros pre segs -> Hok Hno.
  destruct segs as [|[q s] [|[q2 s2] rest]]; [done..|].
  apply Forall_cons in Hok as [[Hq Hs] Hok]. simpl in Hq, Hs.
  pose proof Hok as Hok'. apply Forall_cons in Hok' as [[Hq2 Hs2] Hrest].
  simpl in Hq2, Hs2.
  rewrite spaced_cons2.
  destruct (match_at_segment q s q2 [] Hq Hs Hq2)
    as [[_ ->]|(body & ext & -> & Href & _ & ->)].
  - apply (IH (length ((q2, s2) :: rest))) with (pre := pre ++ q :: s);
      [simpl; lia|done|done|].
    rewrite <- (assoc (++)). done.
  - split; [done|]. destruct rest as [|[q3 s3] rest']; [done|].
    apply Forall_cons in Hrest as [[Hq3 Hs3] Hrest']. simpl in Hq3, Hs3.
    rewrite spaced_cons2.
    destruct (match_at_segment q2 s2 q3 [] Hq2 Hs2 Hq3)
      as [[_ ->]|(body' & ext' & -> & Href' & _ & _)].
    + apply (IH (length ((q3, s3) :: rest')))
        with (pre := pre ++ q :: (body ++ ext) ++ q2 :: s2);
        [simpl; lia|done|by constructor|].
      rewrite !join_cons in Hno. rewrite !join_cons.
      rewrite <- !(assoc (++)). rewrite <- !(assoc (++)) in Hno.
      rewrite <- !app_comm_cons, <- !(assoc (++)). done.
    + exfalso. rewrite !join_cons in Hno.
      apply (Hno pre q body ext q2 body' ext' q3 (s3 ++ join rest')); [|done|done].
      by rewrite <- !(assoc (++)).
Qed.

Lemma sub_idempotent_unshared t : no_shared_quote t -> sub (sub t) = sub t.
Proof.
  intros Hno. destruct (cut_ok t) as [H1 H2].
  pose proof (pass_ok _ H2) as H3.
  rewrite (sub_cut t), sub_plain_prefix, sub_join by done.
  do 2 f_equal. apply quiet_pass, spaced_pass_quiet; [done|].
  apply (no_shared_quote_spaced (cut t).1); [done|]. by rewrite <- cut_join.
Qed.
(** * Proofs: the file system and the run *)

(** [w'] comes after [w]: the calls [evs] were added to the history. *)
Lemma os_mkdir_run p w :
  os_mkdir p w =
    match p with
    | [] => (Raise FileExistsError, push (EvMkdir p) w)
    | _ =>
        match node_at (files w) (parent p) with
        | None => (Raise FileNotFoundError, push (EvMkdir p) w)
        | Some (File _ _) => (Raise NotADirectoryError, push (EvMkdir p) w)
        | Some Dir =>
            match files w !! p with
            | Some _ => (Raise FileExistsError, push (EvMkdir p) w)
            | None => (Ret tt, with_files (<[p := Dir]> (files w)) (push (EvMkdir p) w))
            end
        end
    end.
Proof.
  unfold os_mkdir, bind, record, get_files, raise, put_files, push, with_files. simpl.
  destruct p as [|c p]; [done|].
  destruct (node_at (files w) (parent (c :: p))) as [[|]|]; try done.
  destruct (files w !! (c :: p)); done.
Qed.

Lemma node_at_lookup (t : tree) p : p ≠ [] -> node_at t p = t !! p.
Proof. by destruct p. Qed.

Lemma parent_snoc (p : path) c : parent (p ++ [c]) = p.
Proof. apply removelast_last. Qed.

Lemma path_snoc (p : path) : p ≠ [] -> ∃ d c, p = d ++ [c] ∧ parent p = d.
Proof.
  intros Hne. destruct (exists_last Hne) as (d & c & ->).
  exists d, c. by rewrite parent_snoc.
Qed.

Lemma parent_neq (p : path) : p ≠ [] -> parent p ≠ p.
Proof.
  intros Hne E. destruct (path_snoc p Hne) as (d & c & -> & Hd).
  rewrite Hd in E. apply (f_equal length) in E. rewrite length_app in E. simpl in E. lia.
Qed.

Lemma parent_prefix (p : path) : parent p `prefix_of` p.
Proof.
  destruct (decide (p = [])) as [->|Hne]; [done|].
  destruct (path_snoc p Hne) as (d & c & -> & ->). by apply prefix_app_r.
Qed.

Lemma mkdir_frame_push p x w : mkdir_frame p w (push (EvMkdir x) w).
Proof.
  constructor; try done.
  - exists [(EvMkdir x, files w)]. split; [done|]. repeat constructor. by exists x.
  - intros y Hy [n Hn]. simpl in Hn. congruence.
Qed.

Lemma mkdir_frame_trans p w w1 w2 :
  mkdir_frame p w w1 -> mkdir_frame p w1 w2 -> mkdir_frame p w w2.
Proof.
  intros [c1 o1 (e1 & h1 & f1) g1 n1] [c2 o2 (e2 & h2 & f2) g2 n2].
  constructor; [congruence|congruence| |by etrans|].
  - exists (e2 ++ e1). split.
    + unfold calls_between in *. by rewrite h2, h1, (assoc (++)).
    + by apply Forall_app.
  - intros x Hx Hs. destruct (files w1 !! x) as [n|] eqn:Hx1.
    + destruct (n1 x Hx) as [Hp Hd]; [by eexists|]. split; [done|].
      rewrite Hd in Hx1. injection Hx1 as <-. by eapply lookup_weaken.
    + by apply n2.
Qed.

Lemma mkdir_frame_mono p p' w w' :
  p `prefix_of` p' -> mkdir_frame p w w' -> mkdir_frame p' w w'.
Proof.
  intros Hp [c1 o1 h1 g1 n1]. constructor; try done.
  intros x Hx Hs. destruct (n1 x Hx Hs). split; [by etrans|done].
Qed.

Lemma os_mkdir_cases p w :
  (os_mkdir p w = (Ret tt, with_files (<[p := Dir]> (files w)) (push (EvMkdir p) w)) ∧
     p ≠ [] ∧ node_at (files w) (parent p) = Some Dir ∧ files w !! p = None) ∨
  (os_mkdir p w = (Raise FileNotFoundError, push (EvMkdir p) w) ∧
     p ≠ [] ∧ node_at (files w) (parent p) = None) ∨
  (∃ e, e ≠ FileNotFoundError ∧ os_mkdir p w = (Raise e, push (EvMkdir p) w) ∧
     (p ≠ [] -> is_Some (node_at (files w) (parent p)))).
Proof.
  rewrite os_mkdir_run. destruct p as [|c p'] eqn:Hp.
  { right; right. exists FileExistsError. done. }
  rewrite <- Hp. assert (p ≠ []) as Hne by (by subst). clear Hp.
  destruct (node_at (files w) (parent p)) as [[|]|] eqn:Hpar.
  - right; right. exists NotADirectoryError. eauto.
  - destruct (files w !! p) eqn:Hl.
    + right; right. exists FileExistsError. eauto.
    + by left.
  - right; left. done.
Qed.

Lemma os_mkdir_post p w r w' :
  os_mkdir p w = (r, w') ->
  mkdir_frame p w w' ∧ (r = Ret tt -> dir_in_place (files w') p) ∧
  (∀ e, r = Raise e -> e ≠ FileNotFoundError -> files w' = files w ∧
        (p ≠ [] -> is_Some (node_at (files w') (parent p)))).
Proof.
  destruct (os_mkdir_cases p w) as [(E & Hne & Hpar & Hl)|[(E & _)|(e & He & E & Hpar)]];
    rewrite E; intros [= <- <-].
  - split_and!; [|intros _|done].
    + eapply mkdir_frame_trans; [apply (mkdir_frame_push p p)|].
      constructor; try done.
      * by exists [].
      * simpl. by apply insert_subseteq.
      * simpl. intros x Hx [n Hn]. destruct (decide (p = x)) as [<-|Hxp].
        -- by rewrite lookup_insert_eq.
        -- rewrite lookup_insert_ne in Hn by done. congruence.
    + split; simpl.
      * unfold is_dir. by rewrite node_at_lookup, lookup_insert_eq.
      * intros _. destruct (decide (parent p = [])) as [->|Hpp]; [by eexists|].
        rewrite node_at_lookup in * by done.
        rewrite lookup_insert_ne; [by rewrite Hpar|].
        intros Ep. by apply (parent_neq p).
  - split_and!; [apply mkdir_frame_push|done|]. intros e' [= <-] Hc. by destruct Hc.
  - split_and!; [apply mkdir_frame_push|done|].
    intros e' [= <-] _. done.
Qed.

Lemma mkdir_exist_ok_post p w r w' :
  mkdir_exist_ok p w = (r, w') ->
  mkdir_frame p w w' ∧ (r = Ret tt -> dir_in_place (files w') p).
Proof.
  unfold mkdir_exist_ok.
  destruct (os_mkdir p w) as [[[]|e] w1] eqn:E;
    destruct (os_mkdir_post _ _ _ _ E) as (Hf & Hd & He).
  - intros [= <- <-]. auto.
  - destruct (decide (e = FileNotFoundError)) as [->|Hne].
    + by intros [= <- <-].
    + destruct (He e eq_refl Hne) as [Hfs Hpar].
      assert ((if is_dir (files w1) p then (Ret tt, w1) else (Raise e, w1)) = (r, w') ->
              mkdir_frame p w w' ∧ (r = Ret tt → dir_in_place (files w') p)) as Hgoal.
      { destruct (is_dir (files w1) p) eqn:Hdir; intros [= <- <-]; by split. }
      by destruct e.
Qed.

Lemma mkdir_parents_rev_post rp w r w' :
  mkdir_parents_rev rp w = (r, w') ->
  mkdir_frame (reverse rp) w w' ∧ (r = Ret tt -> dir_in_place (files w') (reverse rp)).
Proof.
  revert w r w'. induction rp as [|c rp IH]; intros w r w'; cbn [mkdir_parents_rev];
    destruct (os_mkdir (reverse _) w) as [[[]|e] w1] eqn:E;
    destruct (os_mkdir_post _ _ _ _ E) as (Hf & Hd & He).
  - intros [= <- <-]. auto.
  - destruct (decide (e = FileNotFoundError)) as [->|Hne].
    + by intros [= <- <-].
    + destruct (He e eq_refl Hne) as [Hfs Hpar].
      assert ((if is_dir (files w1) (reverse []) then (Ret tt, w1) else (Raise e, w1)) = (r, w') ->
              mkdir_frame (reverse []) w w' ∧ (r = Ret tt → dir_in_place (files w') (reverse []))) as Hgoal.
      { destruct (is_dir (files w1) (reverse [])) eqn:Hdir; intros [= <- <-]; by split. }
      by destruct e.
  - intros [= <- <-]. auto.
  - destruct (decide (e = FileNotFoundError)) as [->|Hne].
    + unfold bind.
      assert (reverse rp `prefix_of` reverse (c :: rp)) as Hpre
          by (rewrite reverse_cons; by apply prefix_app_r).
      destruct (mkdir_parents_rev rp w1) as [[[]|e1] w2] eqn:E1;
        destruct (IH _ _ _ E1) as [Hf1 Hd1].
      * intros E2. apply mkdir_exist_ok_post in E2 as [Hf2 Hd2]. split; [|done].
        eapply mkdir_frame_trans; [done|].
        eapply mkdir_frame_trans; [|done]. by eapply mkdir_frame_mono.
      * intros [= <- <-]. split; [|done].
        eapply mkdir_frame_trans; [done|]. by eapply mkdir_frame_mono.
    + destruct (He e eq_refl Hne) as [Hfs Hpar].
      assert ((if is_dir (files w1) (reverse (c :: rp)) then (Ret tt, w1) else (Raise e, w1)) = (r, w') ->
              mkdir_frame (reverse (c :: rp)) w w' ∧
              (r = Ret tt → dir_in_place (files w') (reverse (c :: rp)))) as Hgoal.
      { destruct (is_dir (files w1) (reverse (c :: rp))) eqn:Hdir; intros [= <- <-]; by split. }
      by destruct e.
Qed.

Lemma mkdir_parents_post p w r w' :
  mkdir_parents p w = (r, w') ->
  mkdir_frame p w w' ∧ (r = Ret tt -> dir_in_place (files w') p).
Proof.
  unfold mkdir_parents. intros H. apply mkdir_parents_rev_post in H.
  by rewrite reverse_involutive in H.
Qed.


(** ** Names and suffixes *)

Lemma chars_of_chars l : chars (of_chars l) = l.
Proof. apply list_ascii_of_string_of_list_ascii. Qed.

Lemma chars_app s1 s2 : chars (s1 +:+ s2) = chars s1 ++ chars s2.
Proof. induction s1 as [|c s1 IH]; [done|]. simpl. by rewrite <- IH. Qed.

Lemma name_snoc (d : path) c : name (d ++ [c]) = c.
Proof. unfold name. by rewrite last_snoc. Qed.

Lemma path_split (p : path) : p ≠ [] -> p = parent p ++ [name p].
Proof.
  intros Hne. destruct (path_snoc p Hne) as (d & c & -> & ->). by rewrite name_snoc.
Qed.

Lemma with_suffix_Some p dst :
  with_suffix p ".webp" = Some dst ->
  p ≠ [] ∧ ∃ stem, dst = parent p ++ [of_chars stem +:+ ".webp"].
Proof.
  unfold with_suffix. case_bool_decide as Hn; [done|]. intros [= <-].
  split; [by intros ->|]. eauto.
Qed.

Lemma rfind_dot_app l r :
  rfind_dot r = None -> rfind_dot (l ++ "."%char :: r) = Some (length l).
Proof.
  intros Hr. induction l as [|c l IH]; simpl.
  - by rewrite Hr.
  - by rewrite IH.
Qed.

(** A name that ends in [.webp] is not the name of an image to convert. *)
Lemma webp_not_image stem : is_image_name (of_chars stem +:+ ".webp") = false.
Proof.
  unfold is_image_name, suffix.
  rewrite chars_app, chars_of_chars.
  change (chars ".webp") with ("."%char :: chars "webp").
  rewrite rfind_dot_app by done.
  apply bool_decide_eq_false. rewrite drop_app_length.
  case_bool_decide; intros Hin; unfold IMG_EXTS in Hin;
    repeat (apply elem_of_cons in Hin as [Hin|Hin]; [discriminate Hin|]);
    by apply elem_of_nil in Hin.
Qed.

Lemma webp_not_skipped stem : (of_chars stem +:+ ".webp") ∉ SKIP_DIRS.
Proof.
  intros Hin.
  assert (last (chars (of_chars stem +:+ ".webp")) = Some "p"%char) as Hl.
  { rewrite chars_app. change (chars ".webp") with (chars ".web" ++ ["p"%char]).
    by rewrite (assoc (++)), last_snoc. }
  unfold SKIP_DIRS, BACKUP_DIR in Hin. set_unfold in Hin.
  destruct Hin as [[[Hin|Hin]|Hin]|Hin]; rewrite Hin in Hl; discriminate Hl.
Qed.

Lemma should_skip_app p1 p2 : should_skip (p1 ++ p2) = should_skip p1 || should_skip p2.
Proof. apply existsb_app. Qed.

Lemma should_skip_iff p : should_skip p = true ↔ ∃ part, part ∈ p ∧ part ∈ SKIP_DIRS.
Proof.
  unfold should_skip. rewrite existsb_exists. split.
  - intros (x & Hx & Hd). exists x. split; [by apply list_elem_of_In|].
    by apply bool_decide_eq_true in Hd.
  - intros (x & Hx & Hd). exists x. split; [by apply list_elem_of_In|].
    by apply bool_decide_eq_true.
Qed.

Lemma with_suffix_skip p dst :
  with_suffix p ".webp" = Some dst -> should_skip p = false -> should_skip dst = false.
Proof.
  intros Hw Hs. apply with_suffix_Some in Hw as (Hne & stem & ->).
  rewrite (path_split p Hne), should_skip_app in Hs.
  apply orb_false_iff in Hs as [Hs _].
  rewrite should_skip_app, Hs. simpl. rewrite orb_false_r.
  apply bool_decide_eq_false, webp_not_skipped.
Qed.

Lemma with_suffix_neq p dst :
  with_suffix p ".webp" = Some dst -> is_image_name (name p) = true -> dst ≠ p.
Proof.
  intros Hw Hi. apply with_suffix_Some in Hw as (Hne & stem & ->). intros E.
  rewrite <- E, name_snoc, webp_not_image in Hi. done.
Qed.

Lemma with_suffix_length p dst :
  with_suffix p ".webp" = Some dst -> length dst = length p.
Proof.
  intros Hw. apply with_suffix_Some in Hw as (Hne & stem & ->).
  rewrite (path_split p Hne) at 2. by rewrite !length_app.
Qed.

Lemma with_suffix_parent p dst :
  with_suffix p ".webp" = Some dst -> parent dst = parent p ∧ dst ≠ [].
Proof.
  intros Hw. apply with_suffix_Some in Hw as (Hne & stem & ->).
  rewrite parent_snoc. split; [done|]. by destruct (parent p).
Qed.

Lemma with_suffix_image p dst :
  with_suffix p ".webp" = Some dst -> is_image_name (name dst) = false.
Proof.
  intros Hw. apply with_suffix_Some in Hw as (Hne & stem & ->).
  by rewrite name_snoc, webp_not_image.
Qed.

(** ** The backup step *)

Lemma backup_unfold src w :
  backup src w =
    match mkdir_parents (parent (backup_path src)) w with
    | (Raise e, w1) => (Raise e, w1)
    | (Ret _, w1) =>
        if bool_decide (is_Some (node_at (files w1) (backup_path src)))
        then (Ret tt, push (EvExists (backup_path src)) w1)
        else copy2 src (backup_path src) (push (EvExists (backup_path src)) w1)
    end.
Proof.
  unfold backup, bind. destruct (mkdir_parents _ w) as [[[]|e] w1]; [|done].
  unfold exists_, bind, record, get_files, ret. simpl.
  by case_bool_decide.
Qed.

Lemma copy2_fresh src dst w :
  node_at (files w) dst = None ->
  copy2 src dst w =
    match node_at (files w) src with
    | None => (Raise FileNotFoundError, push (EvCopy src dst) w)
    | Some Dir => (Raise IsADirectoryError, push (EvCopy src dst) w)
    | Some (File data mtime) =>
        match node_at (files w) (parent dst) with
        | None => (Raise FileNotFoundError, push (EvCopy src dst) w)
        | Some (File _ _) => (Raise NotADirectoryError, push (EvCopy src dst) w)
        | Some Dir =>
            (Ret tt, with_files (<[dst := File data mtime]> (files w)) (push (EvCopy src dst) w))
        end
    end.
Proof.
  intros Hd. unfold copy2, bind, record, get_files, raise, put_files. simpl.
  unfold is_dir. rewrite Hd.
  destruct (node_at (files w) src) as [[data mtime|]|] eqn:Hs; try done.
  case_bool_decide as Hsd; [congruence|].
  destruct dst as [|c dst']; [done|].
  destruct (node_at (files w) (parent (c :: dst'))) as [[|]|]; try done.
  simpl in Hd. by rewrite Hd.
Qed.

Lemma backup_path_lookup (t : tree) src : node_at t (backup_path src) = t !! backup_path src.
Proof. done. Qed.

Lemma backup_post src w r w' :
  backup src w = (r, w') ->
  backup_frame src w w' ∧ (r = Ret tt -> backup_done src w w').
Proof.
  rewrite backup_unfold.
  destruct (mkdir_parents _ w) as [[[]|e] w1] eqn:Em;
    apply mkdir_parents_post in Em as [[c1 o1 (e1 & h1 & f1) g1 n1] Hd1].
  2:{ intros [= <- <-]. split; [|done]. constructor; try done.
      - exists e1. split; [done|]. eapply Forall_impl; [done|].
        intros [e' t'] [x Hx]. simpl in *. by subst.
      - intros x Hx Hs. destruct (n1 x Hx Hs) as [Hp _].
        etrans; [done|]. apply parent_prefix. }
  specialize (Hd1 eq_refl).
  assert (Forall (λ et : event * tree, backup_event src et.1) e1) as f1'.
  { eapply Forall_impl; [done|]. intros [e' t'] [x Hx]. simpl in *. by subst. }
  assert (∀ x, files w !! x = None → is_Some (files w1 !! x) → x `prefix_of` backup_path src) as n1'.
  { intros x Hx Hs. destruct (n1 x Hx Hs) as [Hp _]. etrans; [done|]. apply parent_prefix. }
  assert (files w !! backup_path src = None -> files w1 !! backup_path src = None) as Hkeep.
  { intros Hn. destruct (files w1 !! backup_path src) eqn:Hb; [|done].
    destruct (n1 _ Hn) as [Hp _]; [by eexists|].
    exfalso. apply prefix_length in Hp.
    assert (length (parent (backup_path src)) < length (backup_path src))%nat; [|lia].
    destruct (path_snoc (backup_path src)) as (d & c & E & ->); [done|].
    rewrite E, length_app. simpl. lia. }
  case_bool_decide as Hex.
  - intros [= <- <-]. split; [|intros _].
    + constructor; try done. exists ((EvExists (backup_path src), files w1) :: e1).
      split; [|by constructor]. unfold calls_between in *. simpl. by rewrite h1.
    + constructor; try done. intros Hn. apply Hkeep in Hn.
      rewrite backup_path_lookup, Hn in Hex. by destruct Hex.
  - assert (node_at (files w1) (backup_path src) = None) as Hnone.
    { destruct (node_at (files w1) (backup_path src)) eqn:Hb; [|done].
      exfalso. apply Hex. by eexists. }
    rewrite copy2_fresh by done. cbn [files push].
    assert (backup_frame src w (push (EvCopy src (backup_path src))
                                  (push (EvExists (backup_path src)) w1))) as Hfr.
    { constructor; try done.
      exists ((EvCopy src (backup_path src), files w1) ::
              (EvExists (backup_path src), files w1) :: e1).
      split; [|by repeat constructor]. unfold calls_between in *. simpl. by rewrite h1. }
    destruct (node_at (files w1) src) as [[data mtime|]|] eqn:Hs.
    + destruct Hd1 as [Hdir Hpar].
      unfold is_dir in Hdir.
      destruct (node_at (files w1) (parent (backup_path src))) as [[|]|] eqn:Hp; try done.
      intros [= <- <-]. split; [|intros _].
      * destruct Hfr as [? ? ? ? ?]. constructor; try done.
        -- simpl. etrans; [done|]. by apply insert_subseteq.
        -- simpl. intros x Hx Hsx. destruct (decide (backup_path src = x)) as [<-|Hne]; [done|].
           rewrite lookup_insert_ne in Hsx by done. by apply n1'.
      * constructor.
        -- simpl. rewrite lookup_insert_eq. by eexists.
        -- split; simpl.
           ++ unfold is_dir.
              destruct (decide (parent (backup_path src) = [])) as [->|Hpp]; [done|].
              rewrite node_at_lookup in * by done.
              rewrite lookup_insert_ne; [by rewrite Hp|].
              intros Ep. by apply (parent_neq (backup_path src)).
           ++ intros Hne. destruct (Hpar Hne) as [n Hn].
              destruct (decide (parent (parent (backup_path src)) = [])) as [->|Hpp];
                [by eexists|].
              rewrite node_at_lookup in * by done.
              destruct (decide (backup_path src = parent (parent (backup_path src)))) as [Ep|Ep].
              ** rewrite <- Ep, lookup_insert_eq. by eexists.
              ** rewrite lookup_insert_ne by done. by eexists.
        -- simpl. intros Hn. exists data, mtime. rewrite lookup_insert_eq. split; [|done].
           destruct src as [|c src'].
           ++ (* [ROOT] itself is not a file *) done.
           ++ simpl in Hs.
              destruct (files w !! (c :: src')) as [n|] eqn:Hw.
              ** by rewrite (lookup_weaken _ _ _ _ Hw g1) in Hs.
              ** destruct (n1 (c :: src') Hw) as [_ Hdirx]; [by eexists|]. congruence.
    + intros [= <- <-]. by split.
    + intros [= <- <-]. by split.
Qed.

(** ** One image *)

Section ScriptFacts.
Variable webp : Z -> list byte -> option (list byte).
Variable decode : list byte -> text.
Variable encode : text -> list byte.
Variable dir_size : Z.

Lemma write_bytes_run p data w :
  write_bytes p data w =
    match p with
    | [] => (Raise IsADirectoryError, w)
    | _ =>
        match node_at (files w) (parent p) with
        | None => (Raise FileNotFoundError, w)
        | Some (File _ _) => (Raise NotADirectoryError, w)
        | Some Dir =>
            match files w !! p with
            | Some Dir => (Raise IsADirectoryError, w)
            | _ => (Ret tt, mkWorld (<[p := File data (clock w)]> (files w))
                                    (clock w + 1) (console w) (history w))
            end
        end
    end.
Proof.
  unfold write_bytes, bind, get_files, raise, now, put_files, tick.
  destruct p as [|c p]; [done|].
  destruct (node_at (files w) (parent (c :: p))) as [[|]|]; try done.
  destruct (files w !! (c :: p)) as [[|]|]; done.
Qed.

Lemma read_bytes_run p w :
  read_bytes p w =
    match node_at (files w) p with
    | None => (Raise FileNotFoundError, w)
    | Some Dir => (Raise IsADirectoryError, w)
    | Some (File data _) => (Ret data, w)
    end.
Proof.
  unfold read_bytes, bind, get_files, raise, ret.
  by destruct (node_at (files w) p) as [[|]|].
Qed.

Lemma stat_size_run p w :
  stat_size dir_size p w =
    match node_at (files w) p with
    | None => (Raise FileNotFoundError, push (EvStat p) w)
    | Some Dir => (Ret dir_size, push (EvStat p) w)
    | Some (File data _) => (Ret (Z.of_nat (length data)), push (EvStat p) w)
    end.
Proof.
  unfold stat_size, bind, record, get_files, raise, ret. simpl.
  by destruct (node_at (files w) p) as [[|]|].
Qed.

Lemma unlink_run p w :
  unlink p w =
    match node_at (files w) p with
    | None => (Raise FileNotFoundError, push (EvUnlink p) w)
    | Some Dir => (Raise IsADirectoryError, push (EvUnlink p) w)
    | Some (File _ _) => (Ret tt, with_files (delete p (files w)) (push (EvUnlink p) w))
    end.
Proof.
  unfold unlink, bind, record, get_files, raise, put_files. simpl.
  by destruct (node_at (files w) p) as [[|]|].
Qed.

Lemma write_bytes_cases p data w :
  (∃ e, is_Exception e = true ∧ write_bytes p data w = (Raise e, w)) ∨
  write_bytes p data w =
    (Ret tt, mkWorld (<[p := File data (clock w)]> (files w))
                     (clock w + 1) (console w) (history w)).
Proof.
  rewrite write_bytes_run.
  destruct p as [|c p]; [left; eexists; split; [|reflexivity]; reflexivity|].
  destruct (node_at (files w) (parent (c :: p))) as [[|]|];
    try (left; eexists; split; [|reflexivity]; reflexivity).
  destruct (files w !! (c :: p)) as [[|]|];
    try (left; eexists; split; [|reflexivity]; reflexivity); by right.
Qed.

Lemma convert_to_webp_run src w :
  convert_to_webp webp src w =
    match with_suffix src ".webp" with
    | None => (Raise ValueError, w)
    | Some dst =>
        match read_bytes src (push (EvOpenImage src) w) with
        | (Raise e, w1) => (Raise e, w1)
        | (Ret data, w1) =>
            match webp QUALITY data with
            | None => (Raise CodecError, w1)
            | Some out =>
                match write_bytes dst out (push (EvSaveImage dst) w1) with
                | (Raise e, w2) => (Raise e, w2)
                | (Ret _, w2) => (Ret dst, w2)
                end
            end
        end
    end.
Proof.
  unfold convert_to_webp. destruct (with_suffix src ".webp") as [dst|]; [|done].
  unfold bind at 1. cbn [record]. unfold bind at 1.
  destruct (read_bytes src _) as [[data|e] w1]; [|done].
  destruct (webp QUALITY data) as [out|]; [|done].
  unfold bind at 1. cbn [record]. unfold bind at 1.
  change (let (_, y) := (Ret (), w1) in y) with w1.
  change ((let (_, y) := (Ret (), w1) in y)) with w1.
  by destruct (write_bytes dst out _) as [[[]|e] w2].
Qed.

Lemma write_bytes_push p data e w :
  write_bytes p data (push e w) =
    match write_bytes p data w with
    | (Raise x, _) => (Raise x, push e w)
    | (Ret _, _) =>
        (Ret tt, mkWorld (<[p := File data (clock w)]> (files w)) (clock w + 1)
                         (console w) ((e, files w) :: history w))
    end.
Proof.
  rewrite !write_bytes_run. cbn [files push clock console history].
  destruct p as [|c p]; [done|].
  destruct (node_at (files w) (parent (c :: p))) as [[|]|]; try done.
  destruct (files w !! (c :: p)) as [[|]|]; done.
Qed.

Lemma convert_to_webp_result src w :
  convert_result webp src w (convert_to_webp webp src w).1 (convert_to_webp webp src w).2.
Proof.
  rewrite convert_to_webp_run.
  destruct (with_suffix src ".webp") as [dst|] eqn:Hs; [|by constructor].
  assert (src ≠ []) as Hne by (by apply with_suffix_Some in Hs as [? _]).
  rewrite read_bytes_run. cbn [files push].
  rewrite (node_at_lookup _ _ Hne).
  destruct (files w !! src) as [[data mtime|]|] eqn:Hsrc.
  - destruct (webp QUALITY data) as [out|] eqn:Hw.
    + rewrite write_bytes_push.
      change (push (EvSaveImage dst) (push (EvOpenImage src) w)) with
        (mkWorld (files w) (clock w) (console w)
           ((EvSaveImage dst, files w) :: (EvOpenImage src, files w) :: history w)).
      cbn [files clock console history].
      destruct (write_bytes_cases dst out (push (EvOpenImage src) w)) as [(e & He & E)|E];
        rewrite E; simpl.
      * eapply conv_unwritable; try done.
        rewrite write_bytes_run in *. cbn [files push] in E.
        destruct dst as [|c dst']; [by simplify_eq|].
        destruct (node_at (files w) (parent (c :: dst'))) as [[|]|]; simplify_eq; try done.
        destruct (files w !! (c :: dst')) as [[|]|]; simplify_eq; done.
      * by eapply conv_done.
    + simpl. by eapply conv_codec.
  - simpl. eapply conv_unreadable; [done|].
    by rewrite read_bytes_run, (node_at_lookup _ _ Hne), Hsrc.
  - simpl. eapply conv_unreadable; [done|].
    by rewrite read_bytes_run, (node_at_lookup _ _ Hne), Hsrc.
Qed.

Lemma convert_raise src w e w' :
  convert_result webp src w (Raise e) w' ->
  is_Exception e = true ∧ files w' = files w ∧ clock w' = clock w ∧
  console w' = console w ∧
  ∃ evs, calls_between w w' evs ∧ ∀ t0, Forall (image_call src t0) evs.
Proof.
  inversion 1; subst.
  - split_and!; try done. by exists [].
  - split_and!; try done.
    + rewrite read_bytes_run in *. by destruct (node_at (files w) src) as [[|]|]; simplify_eq.
    + exists [(EvOpenImage src, files w)]. split; [done|]. intros t0. by repeat constructor.
  - split_and!; try done.
    exists [(EvOpenImage src, files w)]. split; [done|]. intros t0. by repeat constructor.
  - split_and!; try done.
    + destruct (write_bytes_cases dst out w) as [(e' & He & E)|E]; congruence.
    + exists [(EvSaveImage dst, files w); (EvOpenImage src, files w)].
      split; [done|]. intros t0. by repeat constructor.
Qed.

(** [process_image], one call after the other. *)
Lemma process_image_run acc src w :
  process_image webp dir_size acc src w =
    match stat_size dir_size src w with
    | (Raise e, w1) => (Raise e, w1)
    | (Ret size_before, w1) =>
        match backup src w1 with
        | (Raise e, w2) => (Raise e, w2)
        | (Ret _, w2) =>
            match convert_to_webp webp src w2 with
            | (Raise e, w3) =>
                if is_Exception e
                then (Ret acc, printed (MsgError (name src) e) w3)
                else (Raise e, w3)
            | (Ret dst, w3) =>
                match stat_size dir_size dst w3 with
                | (Raise e, w4) => (Raise e, w4)
                | (Ret size_after, w4) =>
                    if bool_decide (size_before = 0)
                    then (Raise ZeroDivisionError, w4)
                    else
                      match unlink src w4 with
                      | (Raise e, w5) => (Raise e, w5)
                      | (Ret _, w5) =>
                          (Ret (mkTotals (total_before acc + size_before)
                                         (total_after acc + size_after)
                                         (<[to_slashes (str_path src) :=
                                              to_slashes (str_path dst)]> (renamed acc))),
                           printed (MsgConverted (name src) size_before size_after) w5)
                      end
                end
            end
        end
    end.
Proof.
  unfold process_image, bind, try_except, ret, raise, print, printed.
  destruct (stat_size dir_size src w) as [[sb|e] w1]; [|reflexivity].
  destruct (backup src w1) as [[[]|e] w2]; [|reflexivity].
  destruct (convert_to_webp webp src w2) as [[dst|e] w3].
  - destruct (stat_size dir_size dst w3) as [[sa|e] w4]; [|reflexivity].
    case_bool_decide; [reflexivity|].
    destruct (unlink src w4) as [[[]|e] w5]; reflexivity.
  - destruct (is_Exception e); reflexivity.
Qed.

Lemma backup_event_image src t0 et : backup_event src et.1 -> image_call src t0 et.
Proof. unfold backup_event, image_call. by destruct (et.1). Qed.

Lemma backup_path_length src : length (backup_path src) = S (length src).
Proof. done. Qed.

Lemma process_image_frame acc src w :
  image_frame src w (process_image webp dir_size acc src w).2.
Proof.
  rewrite process_image_run, stat_size_run.
  assert (image_frame src w (push (EvStat src) w)) as Hstat.
  { constructor.
    - exists [(EvStat src, files w)]. split; [done|]. apply Forall_singleton. by left.
    - intros x Hx [n Hn]. simpl in Hn. congruence. }
  set (w1 := push (EvStat src) w) in *.
  assert (∀ sb, image_frame src w
    (match backup src w1 with
     | (Raise e, w2) => (Raise e, w2)
     | (Ret _, w2) =>
         match convert_to_webp webp src w2 with
         | (Raise e, w3) =>
             if is_Exception e
             then (Ret acc, printed (MsgError (name src) e) w3)
             else (Raise e, w3)
         | (Ret dst, w3) =>
             match stat_size dir_size dst w3 with
             | (Raise e, w4) => (Raise e, w4)
             | (Ret size_after, w4) =>
                 if bool_decide (sb = 0)
                 then (Raise ZeroDivisionError, w4)
                 else
                   match unlink src w4 with
                   | (Raise e, w5) => (Raise e, w5)
                   | (Ret _, w5) =>
                       (Ret (mkTotals (total_before acc + sb)
                                      (total_after acc + size_after)
                                      (<[to_slashes (str_path src) :=
                                           to_slashes (str_path dst)]> (renamed acc))),
                        printed (MsgConverted (name src) sb size_after) w5)
                   end
             end
         end
     end).2) as Hrest.
  { intros sb.
    destruct (backup src w1) as [rb w2] eqn:Eb.
    apply backup_post in Eb as [[bc bo (eb & hb & fb) bg bn] Hdone].
    assert (history w2 = (eb ++ [(EvStat src, files w)]) ++ history w) as Hh2
      by (by rewrite <- (assoc (++)), hb).
    assert (Forall (image_call src (files w)) (eb ++ [(EvStat src, files w)])) as Hf2.
    { apply Forall_app. split.
      - eapply Forall_impl; [done|]. intros et. apply backup_event_image.
      - apply Forall_singleton. by left. }
    destruct rb as [[]|e]; [|by constructor; eauto].
    destruct (Hdone eq_refl) as [[nb Hnb] _ Hcopy].
    pose proof (convert_to_webp_result src w2) as Hc.
    destruct (convert_to_webp webp src w2) as [[dst|e] w3]; cbn [fst snd] in Hc.
    - inversion Hc as [| | | |dst' data mtime out Hs Hsrc Hw]; subst.
      destruct (with_suffix_parent _ _ Hs) as [_ Hdne].
      rewrite stat_size_run. cbn [files].
      rewrite (node_at_lookup _ _ Hdne), lookup_insert_eq.
      set (t3 := <[dst := File out (clock w2)]> (files w2)).
      set (h3 := (EvSaveImage dst, files w2) :: (EvOpenImage src, files w2) :: history w2).
      assert (∃ n, t3 !! src = Some n ∧ ∃ d m, n = File d m) as (n3 & Hn3 & d3 & m3 & ->).
      { unfold t3. destruct (decide (dst = src)) as [->|Hne].
        - rewrite lookup_insert_eq. eauto.
        - rewrite lookup_insert_ne by done. eauto. }
      assert (src ≠ []) as Hsne by (by apply with_suffix_Some in Hs as [? _]).
      assert (Forall (image_call src (files w))
                ((EvStat dst, t3) :: (EvSaveImage dst, files w2) ::
                 (EvOpenImage src, files w2) :: eb ++ [(EvStat src, files w)])) as Hf4.
      { repeat (apply Forall_cons; split); [by right|done|done|done]. }
      assert (∀ x, files w !! x = None -> is_Some (t3 !! x) ->
                   x `prefix_of` backup_path src ∨ with_suffix src ".webp" = Some x) as Hnew3.
      { intros x Hx Hsx. unfold t3 in Hsx.
        destruct (decide (dst = x)) as [<-|Hne]; [by right|].
        rewrite lookup_insert_ne in Hsx by done. left. by apply bn. }
      case_bool_decide as Hz.
      + cbn [snd]. constructor; cbn [files history push]; [|done].
        exists ((EvStat dst, t3) :: (EvSaveImage dst, files w2) ::
                (EvOpenImage src, files w2) :: eb ++ [(EvStat src, files w)]).
        split; [|exact Hf4]. unfold calls_between. cbn [history push].
        unfold h3. rewrite Hh2. reflexivity.
      + rewrite unlink_run. cbn [files push].
        rewrite (node_at_lookup _ _ Hsne), Hn3. cbn [snd].
        constructor; cbn [files history push with_files printed].
        * exists ((EvUnlink src, t3) :: (EvStat dst, t3) :: (EvSaveImage dst, files w2) ::
                  (EvOpenImage src, files w2) :: eb ++ [(EvStat src, files w)]).
          split.
          { unfold calls_between. cbn [history push]. unfold h3. rewrite Hh2.
            reflexivity. }
          apply Forall_cons. split; [|done].
          unfold image_call. cbn [fst snd]. split_and!; [done| |].
          -- unfold t3. destruct (decide (dst = backup_path src)) as [->|Hne].
             ++ rewrite lookup_insert_eq. by eexists.
             ++ rewrite lookup_insert_ne by done. by eexists.
          -- intros Hnone Himg. destruct (Hcopy Hnone) as (d & m & Hd & Hb).
             exists d, m. unfold t3.
             rewrite !lookup_insert_ne.
             ++ split; [|done]. by eapply lookup_weaken.
             ++ intros E. apply (f_equal length) in E.
                rewrite (with_suffix_length _ _ Hs), backup_path_length in E. lia.
             ++ by apply with_suffix_neq.
        * intros x Hx Hsx. apply Hnew3; [done|].
          destruct Hsx as [nx Hnx]. apply lookup_delete_Some in Hnx as [_ Hnx]. by eexists.
    - apply convert_raise in Hc as (Hex & Hfs & Hcl & Hco & ec & hc & fc).
      rewrite Hex. cbn [snd].
      constructor; cbn [files history printed].
      + exists (ec ++ eb ++ [(EvStat src, files w)]). split.
        * unfold calls_between in *. cbn [history printed]. rewrite hc, Hh2.
          by rewrite <- !(assoc (++)).
        * apply Forall_app. split; [apply fc|done].
      + intros x Hx Hsx. left. apply bn; [done|]. by rewrite <- Hfs. }
  destruct (node_at (files w) src) as [[data mtime|]|]; [apply Hrest|apply Hrest|done].
Qed.

(** ** The loop and [main] *)

Lemma process_images_cons acc src more w :
  process_images webp dir_size acc (src :: more) w =
    match process_image webp dir_size acc src w with
    | (Raise e, w1) => (Raise e, w1)
    | (Ret acc', w1) => process_images webp dir_size acc' more w1
    end.
Proof. done. Qed.

Lemma find_images_run w : find_images w = (Ret (images_of (files w)), w).
Proof. done. Qed.

Lemma find_html_files_run w : find_html_files w = (Ret (html_files_of (files w)), w).
Proof. done. Qed.

Lemma read_text_run p w :
  read_text decode p w =
    match node_at (files w) p with
    | None => (Raise FileNotFoundError, push (EvReadText p) w)
    | Some Dir => (Raise IsADirectoryError, push (EvReadText p) w)
    | Some (File data _) => (Ret (decode data), push (EvReadText p) w)
    end.
Proof.
  unfold read_text, bind, record, ret. rewrite read_bytes_run. cbn [files push].
  by destruct (node_at (files w) p) as [[|]|].
Qed.

Lemma patch_html_files_cons p more rn w :
  patch_html_files decode encode (p :: more) rn w =
    match read_text decode p w with
    | (Raise e, w1) => (Raise e, w1)
    | (Ret s, w1) =>
        if bool_decide (sub s = s) then patch_html_files decode encode more rn w1
        else
          match write_bytes p (encode (sub s)) (push (EvWriteText p) w1) with
          | (Raise e, w2) => (Raise e, w2)
          | (Ret _, w2) =>
              patch_html_files decode encode more rn (printed (MsgHtmlUpdated p) w2)
          end
    end.
Proof.
  cbn [patch_html_files]. unfold bind at 1.
  destruct (read_text decode p w) as [[s|e] w1]; [|done].
  unfold bind at 1. case_bool_decide; [done|].
  unfold write_text, bind, record, print, printed.
  by destruct (write_bytes p _ _) as [[[]|e] w2].
Qed.

Lemma main_run w :
  main webp decode encode dir_size w =
    match images_of (files w) with
    | [] => (Ret tt, printed MsgNoImages w)
    | images =>
        match process_images webp dir_size (mkTotals 0 0 ∅) images
                (printed (MsgFound (length images)) w) with
        | (Raise e, w1) => (Raise e, w1)
        | (Ret acc, w1) =>
            match
              (if negb (bool_decide (html_files_of (files w1) = [])) &&
                  negb (bool_decide (renamed acc = ∅))
               then patch_html_files decode encode (html_files_of (files w1))
                      (renamed acc) (printed MsgPatching w1)
               else (Ret tt, w1))
            with
            | (Raise e, w2) => (Raise e, w2)
            | (Ret _, w2) =>
                (Ret tt, printed (MsgSummary (total_before acc) (total_after acc)) w2)
            end
        end
    end.
Proof.
  unfold main. unfold bind at 1. rewrite find_images_run.
  destruct (images_of (files w)) as [|src more]; [done|].
  unfold bind at 1. cbn [print]. fold (printed (MsgFound (length (src :: more))) w).
  unfold bind at 1.
  destruct (process_images _ _ _ _ _) as [[acc|e] w1]; [|done].
  unfold bind at 1. rewrite find_html_files_run.
  unfold bind at 1.
  destruct (negb _ && negb _).
  - unfold bind at 1. cbn [print]. fold (printed MsgPatching w1).
    by destruct (patch_html_files _ _ _ _ _) as [[[]|e] w2].
  - done.
Qed.

Lemma calls_between_refl w : calls_between w w [].
Proof. done. Qed.

Lemma calls_between_trans w w1 w2 e1 e2 :
  calls_between w w1 e1 -> calls_between w1 w2 e2 -> calls_between w w2 (e2 ++ e1).
Proof. unfold calls_between. intros -> ->. by rewrite (assoc (++)). Qed.

Lemma patch_html_files_calls htmls rn w :
  ∃ evs, calls_between w (patch_html_files decode encode htmls rn w).2 evs ∧
         Forall (fun et => ∃ p, p ∈ htmls ∧ (et.1 = EvReadText p ∨ et.1 = EvWriteText p)) evs.
Proof.
  revert w. induction htmls as [|p more IH]; intros w.
  { exists []. by split. }
  assert (∀ w1 evs1, calls_between w w1 evs1 ->
            Forall (fun et => et.1 = EvReadText p ∨ et.1 = EvWriteText p) evs1 ->
            ∃ evs, calls_between w (patch_html_files decode encode more rn w1).2 evs ∧
              Forall (fun et => ∃ p0, p0 ∈ p :: more ∧
                                (et.1 = EvReadText p0 ∨ et.1 = EvWriteText p0)) evs) as Hgo.
  { intros w1 evs1 H1 F1. destruct (IH w1) as (evs & H2 & F2).
    exists (evs ++ evs1). split; [by eapply calls_between_trans|].
    apply Forall_app. split.
    - eapply Forall_impl; [done|]. intros et (p0 & Hp0 & Het). exists p0. split; [by right|done].
    - eapply Forall_impl; [done|]. intros et Het. exists p. split; [by left|done]. }
  assert (∀ w1 evs1, calls_between w w1 evs1 ->
            Forall (fun et => et.1 = EvReadText p ∨ et.1 = EvWriteText p) evs1 ->
            ∃ evs, calls_between w w1 evs ∧
              Forall (fun et => ∃ p0, p0 ∈ p :: more ∧
                                (et.1 = EvReadText p0 ∨ et.1 = EvWriteText p0)) evs) as Hstop.
  { intros w1 evs1 H1 F1. exists evs1. split; [done|].
    eapply Forall_impl; [done|]. intros et Het. exists p. split; [by left|done]. }
  rewrite patch_html_files_cons, read_text_run.
  assert (calls_between w (push (EvReadText p) w) [(EvReadText p, files w)]) as Hr by done.
  assert (Forall (fun et : event * tree => et.1 = EvReadText p ∨ et.1 = EvWriteText p)
            [(EvReadText p, files w)]) as Fr by (apply Forall_singleton; by left).
  destruct (node_at (files w) p) as [[data mtime|]|]; cbn [snd];
    [|by eapply Hstop|by eapply Hstop].
  case_bool_decide; [by eapply Hgo|].
  rewrite write_bytes_push.
  destruct (write_bytes_cases p (encode (sub (decode data))) (push (EvReadText p) w))
    as [(e & _ & E)|E]; rewrite E; cbn [snd].
  - eapply (Hstop _ [(EvWriteText p, files w); (EvReadText p, files w)]); [done|].
    repeat (apply Forall_cons; split); [by right|by left|done].
  - eapply (Hgo _ [(EvWriteText p, files w); (EvReadText p, files w)]); [done|].
    repeat (apply Forall_cons; split); [by right|by left|done].
Qed.

Lemma image_call_touches src t0 et x :
  image_call src t0 et -> x ∈ touches et.1 ->
  x = src ∨ with_suffix src ".webp" = Some x.
Proof.
  unfold image_call, touches. destruct (et.1); intros H Hx;
    try (by apply elem_of_nil in Hx);
    apply list_elem_of_singleton in Hx as ->;
    try done; try (by destruct H; auto); auto.
Qed.

Lemma image_call_spares src t0 et :
  should_skip src = false -> image_call src t0 et -> spares_skipped et.
Proof.
  intros Hs Hc x Hx. destruct (image_call_touches _ _ _ _ Hc Hx) as [->|Hw]; [done|].
  by eapply with_suffix_skip.
Qed.

Lemma process_images_spare images acc w :
  Forall (fun p => should_skip p = false) images ->
  ∃ evs, calls_between w (process_images webp dir_size acc images w).2 evs ∧
         Forall spares_skipped evs.
Proof.
  intros Hs. revert acc w. induction Hs as [|src more Hsrc _ IH]; intros acc w.
  { exists []. by split. }
  rewrite process_images_cons.
  destruct (process_image_frame acc src w) as [(e1 & H1 & F1) _].
  assert (Forall spares_skipped e1) as F1'.
  { eapply Forall_impl; [done|]. intros et. by apply image_call_spares. }
  destruct (process_image webp dir_size acc src w) as [[acc'|e] w1]; cbn [snd] in *.
  - destruct (IH acc' w1) as (e2 & H2 & F2).
    exists (e2 ++ e1). split; [by eapply calls_between_trans|by apply Forall_app].
  - by exists e1.
Qed.

Lemma backup_path_prefix (p q : path) :
  backup_path p `prefix_of` backup_path q -> p `prefix_of` q.
Proof. unfold backup_path. intros [k E]. injection E as ->. by exists k. Qed.

Lemma backup_path_skipped p : should_skip (backup_path p) = true.
Proof. done. Qed.



(** ** What the locators return *)

Lemma rglob_spec (t : tree) p : p ∈ rglob t ↔ p ≠ [] ∧ is_Some (t !! p).
Proof.
  unfold rglob. rewrite list_elem_of_In, filter_In, <- list_elem_of_In.
  rewrite negb_true_iff, bool_decide_eq_false.
  rewrite list_elem_of_fmap. split.
  - intros [([p' n] & -> & Hin) Hne]. apply elem_of_map_to_list in Hin. split; [done|by eexists].
  - intros [Hne [n Hn]]. split; [|done]. exists (p, n). split; [done|].
    by apply elem_of_map_to_list.
Qed.

Lemma rglob_NoDup (t : tree) : NoDup (rglob t).
Proof.
  unfold rglob. apply NoDup_ListNoDup, List.NoDup_filter, NoDup_ListNoDup.
  apply NoDup_fst_map_to_list.
Qed.

Lemma images_of_spec (t : tree) p :
  p ∈ images_of t ↔
  p ∈ rglob t ∧ is_file t p = true ∧ is_image_name (name p) = true ∧ should_skip p = false.
Proof.
  unfold images_of. rewrite list_elem_of_In, filter_In, <- list_elem_of_In.
  rewrite !andb_true_iff, negb_true_iff.
  split; [intros (? & (? & ?) & ?)|intros (? & ? & ? & ?)]; done.
Qed.

Lemma html_files_of_spec (t : tree) p :
  p ∈ html_files_of t ↔
  p ∈ rglob t ∧ is_html_name (name p) = true ∧ should_skip p = false.
Proof.
  unfold html_files_of. rewrite list_elem_of_In, filter_In, <- list_elem_of_In.
  rewrite !andb_true_iff, negb_true_iff.
  split; [intros (? & ? & ?)|intros (? & ? & ?)]; done.
Qed.

Lemma images_of_NoDup (t : tree) : NoDup (images_of t).
Proof.
  unfold images_of. apply NoDup_ListNoDup, List.NoDup_filter, NoDup_ListNoDup, rglob_NoDup.
Qed.

(** ** Trees as they are on disk *)

Lemma well_formed_parent (t : tree) p :
  well_formed t = true -> is_Some (t !! p) -> p ≠ [] ∧ is_dir t (parent p) = true.
Proof.
  unfold well_formed. rewrite forallb_forall. intros Hwf [n Hn].
  specialize (Hwf p). destruct p as [|c p'].
  - exfalso. assert (false = true); [|done]. apply Hwf.
    apply list_elem_of_In, list_elem_of_fmap. exists ([], n). split; [done|].
    by apply elem_of_map_to_list.
  - split; [done|]. apply Hwf.
    apply list_elem_of_In, list_elem_of_fmap. exists (c :: p', n). split; [done|].
    by apply elem_of_map_to_list.
Qed.

Lemma well_formed_ancestor (t : tree) p k :
  well_formed t = true -> k ≠ [] -> is_Some (t !! (p ++ k)) -> is_dir t p = true.
Proof.
  intros Hwf. induction k as [|c k IH] using rev_ind; [done|]. intros _ Hs.
  destruct (well_formed_parent t _ Hwf Hs) as [_ Hd].
  rewrite (assoc (++)), parent_snoc in Hd.
  destruct k as [|c' k']; [by rewrite app_nil_r in Hd|].
  apply IH; [done|]. unfold is_dir in Hd.
  rewrite node_at_lookup in Hd by (by destruct p).
  destruct (t !! (p ++ c' :: k')); [by eexists|done].
Qed.

Lemma images_of_prefix_free (t : tree) p q' :
  well_formed t = true -> p ∈ images_of t -> q' ∈ images_of t ->
  p `prefix_of` q' -> p = q'.
Proof.
  intros Hwf Hp Hq [k ->].
  apply images_of_spec in Hp as (Hpr & Hpf & _).
  apply images_of_spec in Hq as (Hqr & _).
  destruct k as [|c k]; [by rewrite app_nil_r|]. exfalso.
  apply rglob_spec in Hqr as [_ Hqs].
  pose proof (well_formed_ancestor t p (c :: k) Hwf) as Hd.
  unfold is_file, is_dir in *. destruct (node_at t p) as [[|]|]; try done.
  by specialize (Hd ltac:(done) Hqs).
Qed.

(** ** The whole run *)

Lemma main_calls (P : event * tree -> Prop) w :
  (∀ images acc w1, images = images_of (files w) -> files w1 = files w ->
     ∃ evs, calls_between w1 (process_images webp dir_size acc images w1).2 evs ∧
            Forall P evs) ->
  (∀ p et, should_skip p = false -> et.1 = EvReadText p ∨ et.1 = EvWriteText p -> P et) ->
  ∃ evs, calls_between w (main webp decode encode dir_size w).2 evs ∧ Forall P evs.
Proof.
  intros Hloop Hpatch. rewrite main_run.
  destruct (images_of (files w)) as [|src more] eqn:Hi.
  { exists []. by split. }
  destruct (Hloop (src :: more) (mkTotals 0 0 ∅)
              (printed (MsgFound (length (src :: more))) w)) as (e1 & H1 & F1);
    [reflexivity|reflexivity|]. cbv zeta.
  assert (calls_between w (printed (MsgFound (length (src :: more))) w) []) as H0 by done.
  destruct (process_images _ _ _ _ _) as [[acc|e] w1]; cbn [snd] in *; [|by exists e1].
  match goal with |- context [if ?c then _ else _] => destruct c end.
  - destruct (patch_html_files_calls (html_files_of (files w1)) (renamed acc)
                (printed MsgPatching w1)) as (e2 & H2 & F2).
    assert (∃ evs, calls_between w
              (patch_html_files decode encode (html_files_of (files w1)) (renamed acc)
                 (printed MsgPatching w1)).2 evs ∧ Forall P evs) as (evs & He & Fe).
    { exists (e2 ++ e1). split.
      - unfold calls_between in *. cbn [history printed] in *. rewrite H2, H1.
        by rewrite (assoc (++)).
      - apply Forall_app. split; [|done]. eapply Forall_impl; [done|].
        intros et (p & Hp & Het). apply (Hpatch p); [|done].
        by apply html_files_of_spec in Hp as (_ & _ & ?). }
    destruct (patch_html_files _ _ _ _ _) as [[[]|e] w2]; cbn [snd] in *; by exists evs.
  - by exists e1.
Qed.

Lemma main_spares w :
  ∃ evs, calls_between w (main webp decode encode dir_size w).2 evs ∧
         Forall spares_skipped evs.
Proof.
  apply main_calls.
  - intros images acc w1 -> Hf. apply process_images_spare.
    apply Forall_forall. intros p Hp. by apply images_of_spec in Hp as (_ & _ & _ & ?).
  - intros p et Hs Het x Hx. unfold touches in Hx.
    destruct Het as [E|E]; rewrite E in Hx; by apply list_elem_of_singleton in Hx as ->.
Qed.


End ScriptFacts.
(** * The claims of the specification *)

Section Claims.
Variable webp : Z -> list byte -> option (list byte).
Variable decode : list byte -> text.
Variable encode : text -> list byte.
Variable dir_size : Z.

(** ** Helper lemmas for the claims *)

Lemma in_calls_between w w' evs et :
  calls_between w w' evs -> et ∈ history w' -> et ∈ history w ∨ et ∈ evs.
Proof. unfold calls_between. intros -> Hin. apply elem_of_app in Hin. tauto. Qed.




Lemma stat_size_files p w r w' :
  stat_size dir_size p w = (r, w') -> w' = push (EvStat p) w.
Proof.
  rewrite stat_size_run. by destruct (node_at (files w) p) as [[|]|]; intros [= <- <-].
Qed.




(** .webp is never matched again. *)
Lemma repl_not_matched t m t' :
  match_at IMG_EXTS t = Some m -> match_at IMG_EXTS (repl m ++ t') = None.
Proof.
  intros Hm. apply (match_at_sound IMG_EXTS) in Hm as [_ [Hq1 Hne Hpl Hx Hq2]]; [|done].
  unfold repl. rewrite <- app_comm_cons, <- !(assoc (++)). cbn [app].
  assert (Forall plain (group2 m ++ str ".webp")) as Hp.
  { apply Forall_app; split; [done|]. repeat constructor. }
  rewrite (assoc (++)).
  destruct (match_at_segment (group1 m) _ (group4 m) t' Hq1 Hp Hq2)
    as [[Hn _]|(body' & ext' & E & [_ _ _ Hx' _] & _)]; [done|].
  by apply webp_not_old in E.
Qed.

(** ** The claims *)

(** C9. If the image enumeration yields no image, the run reports that
    there is nothing to do and stops successfully; the tree, the clock
    and the record of file-system calls are as they were: nothing was
    backed up, transcoded, deleted or rewritten. *)
Theorem no_images_nothing_done w :
  find_images w = (Ret [], w) ->
  main webp decode encode dir_size w = (Ret tt, printed MsgNoImages w) ∧
  files (printed MsgNoImages w) = files w ∧
  history (printed MsgNoImages w) = history w ∧
  console (printed MsgNoImages w) = MsgNoImages :: console w.
Proof.
  rewrite find_images_run. intros [= Hi]. by rewrite main_run, Hi.
Qed.


(** A reference is retargeted even when the rename map is empty. *)
Lemma patch_html_files_unlisted p data mtime q1 body ext q2 w :
  files w !! p = Some (File data mtime) -> p ≠ [] ->
  is_dir (files w) (parent p) = true ->
  decode data = q1 :: body ++ ext ++ [q2] ->
  quoted_ref IMG_EXTS q1 body ext q2 ->
  files (patch_html_files decode encode [p] ∅ w).2 !! p =
    Some (File (encode (q1 :: body ++ str ".webp" ++ [q2])) (clock w)).
Proof.
  intros Hp Hne Hd Hdec Hq.
  assert (sub (decode data) = q1 :: body ++ str ".webp" ++ [q2]) as Hsub.
  { symmetry. apply rewrites_fun. rewrite Hdec. apply rw_ref; [done|constructor]. }
  rewrite patch_html_files_cons, read_text_run, (node_at_lookup _ _ Hne), Hp.
  rewrite bool_decide_false.
  2:{ rewrite Hsub, Hdec. intros [= E]. apply app_inv_head in E.
      destruct Hq as [_ _ _ Hx _]. apply (webp_not_old [] [] ext Hx).
      apply (f_equal (fun l => removelast l)) in E.
      by rewrite !removelast_last in E. }
  rewrite write_bytes_push, write_bytes_run. cbn [files push].
  destruct p as [|c p']; [done|]. unfold is_dir in Hd.
  destruct (node_at (files w) (parent (c :: p'))) as [[|]|]; try done.
  rewrite Hp. cbn [patch_html_files ret snd files printed clock push].
  by rewrite lookup_insert_eq, Hsub.
Qed.






(** C2. A path with a component in the exclusion set is never returned
    by [find_images] or by [find_html_files], whatever its extension,
    and no call of the run reads, transcodes, deletes or rewrites it. *)
Theorem skipped_paths_never_located_nor_touched w p :
  (∃ part, part ∈ p ∧ part ∈ SKIP_DIRS) ->
  (∀ l w', find_images w = (Ret l, w') -> p ∉ l) ∧
  (∀ l w', find_html_files w = (Ret l, w') -> p ∉ l) ∧
  (∀ e t, (e, t) ∈ history (main webp decode encode dir_size w).2 ->
          (e, t) ∈ history w ∨ p ∉ touches e).
Proof.
  intros Hskip. apply should_skip_iff in Hskip. split_and!.
  - intros l w'. rewrite find_images_run. intros [= <- _] Hin.
    apply images_of_spec in Hin as (_ & _ & _ & ?). congruence.
  - intros l w'. rewrite find_html_files_run. intros [= <- _] Hin.
    apply html_files_of_spec in Hin as (_ & _ & ?). congruence.
  - intros e t Hin. destruct (main_spares webp decode encode dir_size w) as (evs & Hc & Hf).
    destruct (in_calls_between _ _ _ _ Hc Hin) as [?|Hev]; [by left|right].
    rewrite Forall_forall in Hf. intros Hp. specialize (Hf _ Hev p Hp). congruence.
Qed.

End Claims.

(** C4, as the code has it.  The rewriter is the left-to-right scan that
    [rewrites] describes: where a quote, a body of one or more characters
    that are not quotes, an old extension in any mix of cases and a quote
    of either kind follow one another, the extension becomes [.webp],
    quotes and body are kept, and the scan resumes after the closing
    quote; every other character is copied.  The closing quote need not
    be the quote that opened. *)
Theorem sub_rewrites_quoted_references t :
  rewrites t (sub t) ∧ ∀ t', rewrites t t' -> t' = sub t.
Proof. split; [apply rewrites_sub|apply rewrites_fun]. Qed.

(** C10, as the code has it.  Two passes of the rewriter reach a fixed
    point: a third changes nothing.  One pass is enough for a text in
    which no reference begins at the closing quote of another, and what
    a pass has emitted for a match is not matched again. *)
Theorem sub_settles_after_two_passes t :
  sub (sub (sub t)) = sub (sub t) ∧
  (no_shared_quote t -> sub (sub t) = sub t) ∧
  (∀ m t', match_at IMG_EXTS t = Some m -> match_at IMG_EXTS (repl m ++ t') = None).
Proof.
  split_and!.
  - apply sub_sub_fixed.
  - apply sub_idempotent_unshared.
  - intros m t'. apply repl_not_matched.
Qed.

(** ** The claims on sample inputs *)

Lemma no_images_nothing_done_witness :
  find_images (fresh_run site_without_images) = (Ret [], fresh_run site_without_images) ∧
  files (main webp_takes_all decode_bytes encode_bytes 4096 (fresh_run site_without_images)).2
    = site_without_images.
Proof.
  assert (find_images (fresh_run site_without_images)
          = (Ret [], fresh_run site_without_images)) as H by (vm_compute; reflexivity).
  split; [exact H|].
  destruct (no_images_nothing_done webp_takes_all decode_bytes encode_bytes 4096 _ H)
    as [-> _].
  reflexivity.
Defined.






Lemma skipped_paths_never_located_nor_touched_witness :
  (∃ part, part ∈ ["backup_images"; "a.png"] ∧ part ∈ SKIP_DIRS) ∧
  ∀ l w', find_images (fresh_run site_run_again) = (Ret l, w') ->
          ["backup_images"; "a.png"] ∉ l.
Proof.
  assert (∃ part, part ∈ ["backup_images"; "a.png"] ∧ part ∈ SKIP_DIRS) as H.
  { exists "backup_images". split; [by left|]. by vm_compute. }
  split; [exact H|].
  exact (proj1 (skipped_paths_never_located_nor_touched webp_takes_all decode_bytes
                  encode_bytes 4096 (fresh_run site_run_again) _ H)).
Defined.

Lemma sub_rewrites_quoted_references_witness :
  rewrites page (markup "<img src=`img/a.webp`>") ∧
  markup "<img src=`img/a.webp`>" = sub page.
Proof.
  assert (rewrites page (markup "<img src=`img/a.webp`>")) as H.
  { replace (markup "<img src=`img/a.webp`>") with (sub page) by (vm_compute; reflexivity).
    exact (proj1 (sub_rewrites_quoted_references page)). }
  split; [exact H|].
  exact (proj2 (sub_rewrites_quoted_references page) _ H).
Defined.

Lemma sub_settles_after_two_passes_witness :
  shares_quote page = false ∧ sub (sub page) = sub page.
Proof.
  assert (shares_quote page = false) as H by (vm_compute; reflexivity).
  split; [exact H|].
  exact (proj1 (proj2 (sub_settles_after_two_passes page)) (shares_quote_false _ H)).
Defined.

(** ** Where the specification and the code part *)


(** C4: a double quote, a path, a single quote: no quoted string in the
    usual sense, and rewritten all the same. *)
Lemma mismatched_quotes_are_rewritten :
  let t := dquote :: str "a.jpg" ++ [squote] in
  sub t = dquote :: str "a.webp" ++ [squote] ∧
  sub t ≠ t ∧
  ∀ pre q1 body ext post,
    t = pre ++ q1 :: body ++ ext ++ q1 :: post -> is_quote q1 = true -> False.
Proof.
  cbv zeta. split_and!.
  - vm_compute. reflexivity.
  - vm_compute. discriminate.
  - intros pre q1 body ext post E Hq.
    assert (length (List.filter (N.eqb q1) (dquote :: str "a.jpg" ++ [squote])) ≥ 2)%nat as Hc.
    { rewrite E. rewrite List.filter_app. cbn [List.filter]. rewrite N.eqb_refl.
      rewrite !List.filter_app. cbn [List.filter]. rewrite N.eqb_refl.
      rewrite !length_app. cbn [length]. rewrite !length_app. cbn [length]. lia. }
    unfold is_quote in Hq. apply orb_true_iff in Hq as [Hq|Hq]; apply N.eqb_eq in Hq;
      subst q1; vm_compute in Hc; lia.
Qed.


(** C10: the closing quote of the first reference opens the second, which
    only the second pass finds. *)
Lemma sub_not_idempotent :
  let t := markup "`a.jpg`b.png`" in
  sub t = markup "`a.webp`b.png`" ∧
  sub (sub t) = markup "`a.webp`b.webp`" ∧
  sub (sub t) ≠ sub t.
Proof.
  cbv zeta. split_and!.
  - vm_compute. reflexivity.
  - vm_compute. reflexivity.
  - vm_compute. discriminate.
Qed.
(** * Further properties of the script *)

(** X1. A path with a skipped component is skipped wherever the
    component stands: so is everything below a skipped directory, at
    any depth of the tree. *)
Theorem should_skip_anywhere (above p below : path) :
  should_skip p = true -> should_skip (above ++ p ++ below) = true.
Proof. intros H. rewrite !should_skip_app, H. cbn [orb]. apply orb_true_r. Qed.

(** X2. [find_images] leaves the world as it is and returns, each once,
    exactly the regular files below [ROOT] whose suffix is an image
    extension in any mix of cases and whose path has no skipped
    component. *)
Theorem find_images_exact w :
  ∃ l, find_images w = (Ret l, w) ∧ NoDup l ∧
       ∀ p, p ∈ l ↔ p ≠ [] ∧ is_file (files w) p = true ∧
                     is_image_name (name p) = true ∧ should_skip p = false.
Proof.
  exists (images_of (files w)). split; [apply find_images_run|].
  split; [apply images_of_NoDup|]. intros p.
  rewrite images_of_spec, rglob_spec. split.
  - intros ([Hne _] & ? & ? & ?). done.
  - intros (Hne & Hf & ? & ?). split_and!; try done.
    unfold is_file in Hf. rewrite node_at_lookup in Hf by done.
    destruct (files w !! p); [by eexists|done].
Qed.

(** X3. [find_html_files] does not ask whether an entry is a file: it
    returns every entry below [ROOT], file or directory, whose name ends
    in [.html] and whose path has no skipped component. *)
Theorem find_html_files_exact w :
  ∃ l, find_html_files w = (Ret l, w) ∧
       ∀ p, p ∈ l ↔ p ≠ [] ∧ is_Some (files w !! p) ∧
                     is_html_name (name p) = true ∧ should_skip p = false.
Proof.
  exists (html_files_of (files w)). split; [apply find_html_files_run|]. intros p.
  rewrite html_files_of_spec, rglob_spec. split.
  - intros ([? ?] & ? & ?). done.
  - intros (? & ? & ? & ?). done.
Qed.

Section PatchAndConvert.
Variable webp : Z -> list byte -> option (list byte).
Variable decode : list byte -> text.
Variable encode : text -> list byte.
Variable dir_size : Z.

(** X4. [patch_html_files] has no handler of its own: with a directory
    among the paths it is given, it raises, and the paths after the one
    that failed are not patched. *)
Theorem patch_html_files_raises_on_directory htmls rn w p :
  p ∈ htmls -> is_dir (files w) p = true ->
  ∃ e w', patch_html_files decode encode htmls rn w = (Raise e, w').
Proof.
  intros Hin. revert w. induction htmls as [|h more IH]; intros w Hd.
  { by apply elem_of_nil in Hin. }
  rewrite patch_html_files_cons, read_text_run.
  destruct (node_at (files w) h) as [[data mtime|]|] eqn:Hh; [|by eauto|by eauto].
  assert (p ≠ h) as Hne by (intros ->; unfold is_dir in Hd; by rewrite Hh in Hd).
  apply elem_of_cons in Hin as [?|Hin]; [done|].
  case_bool_decide.
  { apply IH; [done|]. done. }
  rewrite write_bytes_push.
  destruct (write_bytes_cases h (encode (sub (decode data))) (push (EvReadText h) w))
    as [(e & _ & E)|E]; rewrite E; [by eauto|].
  apply IH; [done|]. unfold is_dir in *. cbn [files printed push].
  destruct p as [|c p']; [done|]. cbn [node_at] in *.
  by rewrite lookup_insert_ne.
Qed.

(** X5. Whatever its outcome, [backup] only adds to the tree: no entry
    is removed or changed, nothing is printed, the clock stands still,
    and every entry it adds lies in the backup directory, out of sight of
    the locators. *)
Theorem backup_only_adds src w :
  files w ⊆ files (backup src w).2 ∧
  clock (backup src w).2 = clock w ∧
  console (backup src w).2 = console w ∧
  ∀ x, x ≠ [] -> files w !! x = None -> is_Some (files (backup src w).2 !! x) ->
       should_skip x = true.
Proof.
  destruct (backup src w) as [r w'] eqn:E.
  apply backup_post in E as [[Hc Ho _ Hg Hn] _]. cbn [snd].
  split_and!; try done.
  intros x Hne Hx Hs. destruct (Hn x Hx Hs) as [k Hk].
  destruct x as [|c x']; [done|]. unfold backup_path in Hk. injection Hk as <- _.
  done.
Qed.


(** X7. A conversion that returns has read the source, written what the
    codec made of it to the path with the suffix replaced by [.webp],
    stamped with the clock, and changed nothing else in the tree. *)
Theorem convert_to_webp_success src w dst w' :
  convert_to_webp webp src w = (Ret dst, w') ->
  with_suffix src ".webp" = Some dst ∧
  ∃ data mtime out,
    files w !! src = Some (File data mtime) ∧
    webp QUALITY data = Some out ∧
    files w' = <[dst := File out (clock w)]> (files w) ∧
    clock w' = clock w + 1 ∧ console w' = console w.
Proof.
  intros E. pose proof (convert_to_webp_result webp src w) as Hc.
  rewrite E in Hc. cbn [fst snd] in Hc.
  inversion Hc; subst. split; [done|]. by exists data, mtime, out.
Qed.
End PatchAndConvert.

Lemma should_skip_anywhere_witness :
  should_skip [".git"] = true ∧
  should_skip (["vendor"; "lib"] ++ [".git"] ++ ["objects"; "a.png"]) = true.
Proof.
  assert (should_skip [".git"] = true) as H by (vm_compute; reflexivity).
  split; [exact H|]. exact (should_skip_anywhere ["vendor"; "lib"] _ ["objects"; "a.png"] H).
Defined.

(** ** Names *)

Lemma lower_ascii_dot c : lower_ascii c = "."%char ↔ c = "."%char.
Proof.
  destruct c as [[] [] [] [] [] [] [] []]; vm_compute; split; congruence.
Qed.

Lemma rfind_dot_None l : rfind_dot l = None ↔ Forall (fun c => c ≠ "."%char) l.
Proof.
  induction l as [|c l IH]; simpl.
  - split; [constructor|done].
  - destruct (rfind_dot l) as [i|].
    + split; [done|]. intros H. apply Forall_cons in H as [_ H]. apply IH in H. done.
    + case_bool_decide as Hc.
      * split; [done|]. intros H. apply Forall_cons in H as [H _]. done.
      * split; [|done]. intros _. constructor; [done|]. by apply IH.
Qed.

Lemma of_chars_chars s : of_chars (chars s) = s.
Proof. apply string_of_list_ascii_of_string. Qed.

(** The characters of a name that lowers to an image extension: a dot,
    then characters that are not dots. *)
Lemma image_ext_chars x e :
  e ∈ IMG_EXTS -> lower_str x = e ->
  ∃ rest, chars x = "."%char :: rest ∧ rest ≠ [] ∧ rfind_dot rest = None.
Proof.
  intros He Hx. apply (f_equal chars) in Hx. unfold lower_str in Hx.
  rewrite chars_of_chars in Hx.
  assert (∀ c k, lower_ascii c = k -> k ≠ "."%char -> c ≠ "."%char) as Hnd.
  { intros c k <- Hk ->. by apply Hk. }
  unfold IMG_EXTS in He.
  repeat (apply elem_of_cons in He as [->|He]); [..|by apply elem_of_nil in He];
    destruct (chars x) as [|c0 [|c1 [|c2 [|c3 l]]]]; try discriminate Hx;
    try (destruct l as [|c4 l]; try discriminate Hx; try (destruct l; try discriminate Hx));
    rewrite ?fmap_cons in Hx; simplify_eq/=;
    match goal with H : lower_ascii _ = "."%char |- _ => apply lower_ascii_dot in H as -> end;
    eexists; (split; [reflexivity|]); (split; [done|]);
    apply rfind_dot_None; repeat constructor; (eapply Hnd; [eassumption|done]).
Qed.

Lemma suffix_image_name stem x e :
  stem ≠ [] -> e ∈ IMG_EXTS -> lower_str x = e -> suffix (of_chars stem +:+ x) = x.
Proof.
  intros Hs He Hx. destruct (image_ext_chars x e He Hx) as (rest & Hc & Hr & Hd).
  unfold suffix. rewrite chars_app, chars_of_chars, Hc, rfind_dot_app by done.
  rewrite bool_decide_true.
  - by rewrite drop_app_length, <- Hc, of_chars_chars.
  - rewrite length_app. simpl. destruct stem; [done|]. destruct rest; [done|]. simpl. lia.
Qed.

(** X8. The image test looks at the suffix only and in any mix of cases:
    a name made of a non-empty stem and one of the three extensions,
    however capitalised, is an image name. *)
Theorem is_image_name_any_case stem x e :
  stem ≠ [] -> e ∈ IMG_EXTS -> lower_str x = e ->
  is_image_name (of_chars stem +:+ x) = true.
Proof.
  intros Hs He Hx. unfold is_image_name.
  rewrite (suffix_image_name stem x e) by done. rewrite Hx. by apply bool_decide_eq_true.
Qed.

(** X9. A name with no dot, or whose last dot is its first or its last
    character, has no suffix and is not an image name: a file called
    [.png] is left alone. *)
Theorem is_image_name_needs_suffix n :
  (∀ i, rfind_dot (chars n) = Some i -> i = 0%nat ∨ i = (length (chars n) - 1)%nat) ->
  suffix n = "" ∧ is_image_name n = false.
Proof.
  intros H. assert (suffix n = "") as Hs.
  { unfold suffix. destruct (rfind_dot (chars n)) as [i|]; [|done].
    rewrite bool_decide_false; [done|]. destruct (H i eq_refl); lia. }
  split; [done|]. unfold is_image_name. rewrite Hs. vm_compute. reflexivity.
Qed.

(** X10. The destination of a conversion is the source with its
    extension replaced by [.webp], so images of one directory that
    differ in their extension only have the same destination. *)
Theorem with_suffix_of_image (d : path) stem x y e e' :
  stem ≠ [] -> e ∈ IMG_EXTS -> lower_str x = e -> e' ∈ IMG_EXTS -> lower_str y = e' ->
  with_suffix (d ++ [of_chars stem +:+ x]) ".webp" = Some (d ++ [of_chars stem +:+ ".webp"]) ∧
  with_suffix (d ++ [of_chars stem +:+ x]) ".webp" =
    with_suffix (d ++ [of_chars stem +:+ y]) ".webp".
Proof.
  assert (∀ z f, stem ≠ [] -> f ∈ IMG_EXTS -> lower_str z = f ->
            with_suffix (d ++ [of_chars stem +:+ z]) ".webp"
            = Some (d ++ [of_chars stem +:+ ".webp"])) as Hone.
  { intros z f Hs Hf Hz. unfold with_suffix. rewrite name_snoc, parent_snoc.
    rewrite bool_decide_false.
    - rewrite (suffix_image_name stem z f) by done.
      rewrite chars_app, chars_of_chars, length_app.
      replace (length stem + length (chars z) - length (chars z))%nat with (length stem) by lia.
      by rewrite take_app_length.
    - intros E. apply (f_equal chars) in E. rewrite chars_app, chars_of_chars in E.
      destruct stem; [done|]. discriminate E. }
  intros Hs He Hx He' Hy. split; [exact (Hone x e Hs He Hx)|].
  rewrite (Hone x e), (Hone y e'); done.
Qed.

Lemma is_image_name_any_case_witness :
  is_image_name "photo.JpEg" = true.
Proof.
  exact (is_image_name_any_case (chars "photo") ".JpEg" ".jpeg"
           ltac:(discriminate) ltac:(right; left) eq_refl).
Defined.

Lemma is_image_name_needs_suffix_witness :
  suffix ".png" = "" ∧ is_image_name ".png" = false.
Proof.
  apply (is_image_name_needs_suffix ".png").
  intros i Hi. vm_compute in Hi. injection Hi as <-. by left.
Defined.

Lemma with_suffix_of_image_witness :
  with_suffix ["img"; "a.png"] ".webp" = with_suffix ["img"; "a.JPG"] ".webp".
Proof.
  exact (proj2 (with_suffix_of_image ["img"] (chars "a") ".png" ".JPG" ".png" ".jpg"
                  ltac:(discriminate) ltac:(right; right; left) eq_refl
                  ltac:(left) eq_refl)).
Defined.

(** ** The pattern *)

(** A match is replaced by something else. *)
Lemma repl_changes m t :
  match_at IMG_EXTS t = Some m -> repl m ++ sub (after m) ≠ t.
Proof.
  intros Hm E.
  apply (match_at_sound IMG_EXTS) in Hm; [|done].
  destruct Hm as [Ht [Ho Hs Hp He Hc]].
  assert (repl m ++ sub (after m)
          = group1 m :: (group2 m ++ str ".webp") ++ group4 m :: sub (after m)) as Hr.
  { unfold repl. rewrite <- app_comm_cons, <- !(assoc (++)). reflexivity. }
  rewrite Hr, Ht, (assoc (++) (group2 m)) in E.
  apply (f_equal (@tl _)) in E. cbn [tl] in E.
  apply (first_quote_unique (group2 m ++ str ".webp") (group2 m ++ group3 m)) in E.
  - destruct E as (E & _ & _). by apply webp_not_old in E.
  - apply Forall_app. split; [done|]. repeat constructor.
  - apply Forall_app. split; [done|]. by apply old_ext_plain.
  - done.
  - done.
Qed.

Lemma sub_fixed_has_ref t : sub t = t -> has_ref t = false.
Proof.
  induction t as [|c t IH]; [done|]. rewrite sub_unfold.
  destruct (match_at IMG_EXTS (c :: t)) as [m|] eqn:Hm.
  - intros E. by apply repl_changes in E.
  - intros E. injection E as E. cbn [has_ref]. rewrite Hm, (IH E).
    rewrite bool_decide_false; [done|]. by intros [? ?].
Qed.

(** X11. Python lists the set [IMG_EXTS] in an order of its own when
    the pattern is built; whatever that order, the substitution is the
    same. *)
Theorem sub_any_iteration_order exts t :
  exts ≡ₚ IMG_EXTS -> sub_with exts t = sub t.
Proof. apply sub_order_irrelevant. Qed.

(** X12. The substitution changes a text exactly when the text holds a
    reference: the guard [new_text != text] is the test for one. *)
Theorem sub_changes_iff_reference t : sub t = t ↔ no_ref t.
Proof.
  split; [|apply sub_no_ref].
  intros E. by apply has_ref_false, sub_fixed_has_ref.
Qed.

(** X13. The substitution neither adds, drops nor moves a quote: the
    quote characters of the result are those of the text, in order. *)
Theorem sub_keeps_quotes t :
  List.filter is_quote (sub t) = List.filter is_quote t.
Proof.
  assert (∀ s, Forall plain s -> List.filter is_quote s = []) as Hplain.
  { induction 1 as [|c s Hc _ IH]; [done|]. simpl. by rewrite Hc. }
  pose proof (rewrites_sub t) as H.
  induction H as [|q1 body ext q2 rest rest' [Ho Hs Hp He Hc] _ IH|c t t' _ _ IH].
  - done.
  - cbn [List.filter]. rewrite Ho, !List.filter_app. cbn [List.filter]. rewrite Hc, IH.
    rewrite (Hplain body), (Hplain ext), (Hplain (str ".webp")); first done.
    + repeat constructor.
    + by apply old_ext_plain.
    + done.
  - simpl. by rewrite IH.
Qed.

Lemma sub_any_iteration_order_witness :
  sub_with [".png"; ".jpeg"; ".jpg"] (markup "<img src=`a.JPEG`>") = sub (markup "<img src=`a.JPEG`>").
Proof.
  apply sub_any_iteration_order.
  exact (Permutation_sym (Permutation_rev IMG_EXTS)).
Defined.

(** ** Changes of the tree *)

Lemma well_formed_iff (t : tree) :
  well_formed t = true ↔ ∀ p, is_Some (t !! p) -> p ≠ [] ∧ is_dir t (parent p) = true.
Proof.
  split; [intros H p; by apply well_formed_parent|].
  intros H. unfold well_formed. apply forallb_forall. intros p Hp.
  apply list_elem_of_In, list_elem_of_fmap in Hp as ([p' n] & -> & Hp).
  apply elem_of_map_to_list in Hp. cbn [fst].
  destruct (H p') as [Hne Hd]; [by eexists|]. by destruct p'.
Qed.

Lemma is_dir_insert (t : tree) p n q :
  t !! p ≠ Some Dir -> is_dir t q = true -> is_dir (<[p := n]> t) q = true.
Proof.
  unfold is_dir. destruct q as [|c q]; [done|]. cbn [node_at]. intros Hp Hq.
  destruct (decide (p = c :: q)) as [->|Hne].
  - destruct (t !! (c :: q)) as [[]|]; done.
  - by rewrite lookup_insert_ne.
Qed.

Lemma well_formed_insert (t : tree) p n :
  well_formed t = true -> p ≠ [] -> is_dir t (parent p) = true -> t !! p ≠ Some Dir ->
  well_formed (<[p := n]> t) = true.
Proof.
  rewrite !well_formed_iff. intros Hwf Hne Hd Hp q Hq.
  destruct (decide (p = q)) as [<-|Hpq].
  - split; [done|]. by apply is_dir_insert.
  - rewrite lookup_insert_ne in Hq by done. destruct (Hwf q Hq) as [? ?].
    split; [done|]. by apply is_dir_insert.
Qed.

Lemma well_formed_delete (t : tree) p data mtime :
  well_formed t = true -> t !! p = Some (File data mtime) ->
  well_formed (delete p t) = true.
Proof.
  rewrite !well_formed_iff. intros Hwf Hp q Hq.
  destruct (decide (p = q)) as [<-|Hpq]; [rewrite lookup_delete_eq in Hq; by destruct Hq|].
  rewrite lookup_delete_ne in Hq by done. destruct (Hwf q Hq) as [? Hd].
  split; [done|]. unfold is_dir in *. destruct (parent q) as [|c r] eqn:E; [done|].
  cbn [node_at] in *. destruct (decide (p = c :: r)) as [->|?].
  - by rewrite Hp in Hd.
  - by rewrite lookup_delete_ne.
Qed.

Lemma tree_step_well_formed imgs t t' :
  tree_step imgs t t' -> well_formed t = true -> well_formed t' = true.
Proof.
  intros [t0 p n Hne Hd Hp _|t0 p d m Hne Hd Hp _|t0 p d m Hp _] Hwf.
  - apply well_formed_insert; try done. by rewrite Hp.
  - by apply well_formed_insert.
  - by eapply well_formed_delete.
Qed.

Lemma steps_well_formed imgs t t' :
  rtc (tree_step imgs) t t' -> well_formed t = true -> well_formed t' = true.
Proof. induction 1; eauto using tree_step_well_formed. Qed.

Lemma tree_step_mono imgs imgs' t t' :
  imgs ⊆ imgs' -> tree_step imgs t t' -> tree_step imgs' t t'.
Proof.
  intros Hsub [t0 p n ? ? ? ?|t0 p d m ? ? ? [Hs Hr]|t0 p d m ? ?].
  - by apply ts_add.
  - apply ts_write; try done. split; [done|].
    destruct Hr as [(src & ? & ?)|?]; [left; exists src; split; [by apply Hsub|done]|by right].
  - eapply ts_unlink; [done|by apply Hsub].
Qed.

Lemma steps_mono imgs imgs' t t' :
  imgs ⊆ imgs' -> rtc (tree_step imgs) t t' -> rtc (tree_step imgs') t t'.
Proof. intros Hsub. apply rtc_subrel. intros ? ?. by apply tree_step_mono. Qed.

Lemma entry_change_lookup (imgs : list path) (t t1 t2 : tree) (x : path) :
  t2 !! x = t1 !! x -> entry_change imgs t t1 x -> entry_change imgs t t2 x.
Proof.
  intros E [H|H1 H2|d m H1 H2 H3|d m H1 H2 H3].
  - apply ec_same. by rewrite E.
  - by apply ec_added.
  - eapply ec_removed; [done..|]. by rewrite E.
  - eapply ec_written; [done..|]. by rewrite E.
Qed.

(** An entry differs after some changes in one of three ways. *)
Lemma steps_entry_change imgs t t' x :
  Forall (fun p => should_skip p = false) imgs ->
  rtc (tree_step imgs) t t' -> entry_change imgs t t' x.
Proof.
  intros Himgs H. rewrite Forall_forall in Himgs.
  revert t' H. apply (rtc_ind_r (fun t' => entry_change imgs t t' x)); [by apply ec_same|].
  intros t1 t2 _ Hs IH.
  destruct Hs as [t1 p n Hne Hd Hp Hsk|t1 p d m Hne Hd Hp Hrw|t1 p d m Hp Hin].
  - destruct (decide (p = x)) as [->|Hpx].
    + destruct IH as [E|H1 H2|d m H1 H2 H3|d m H1 H2 H3].
      * apply ec_added; [done|]. by rewrite <- E.
      * by apply ec_added.
      * apply Himgs in H1. congruence.
      * congruence.
    + eapply entry_change_lookup; [|done]. by rewrite lookup_insert_ne.
  - destruct (decide (p = x)) as [->|Hpx].
    + assert (t !! x ≠ Some Dir) as Hnd.
      { destruct IH as [E|H1 H2|d' m' H1 H2 H3|d' m' H1 H2 H3]; destruct Hrw as [? _]; congruence. }
      eapply ec_written; [done..|]. apply lookup_insert_eq.
    + eapply entry_change_lookup; [|done]. by rewrite lookup_insert_ne.
  - destruct (decide (p = x)) as [->|Hpx].
    + destruct IH as [E|H1 H2|d' m' H1 H2 H3|d' m' H1 H2 H3].
      * eapply ec_removed; [done| |apply lookup_delete_eq]. by rewrite <- E.
      * apply Himgs in Hin. congruence.
      * congruence.
      * destruct (t !! x) as [[d0 m0|]|] eqn:E.
        -- eapply ec_removed; [done|done|apply lookup_delete_eq].
        -- done.
        -- apply ec_same. by rewrite lookup_delete_eq.
    + eapply entry_change_lookup; [|done]. by rewrite lookup_delete_ne.
Qed.

(** *** The changes each function makes *)

Lemma steps_os_mkdir imgs p w :
  (p ≠ [] -> should_skip p = true) ->
  rtc (tree_step imgs) (files w) (files (os_mkdir p w).2).
Proof.
  intros Hp. rewrite os_mkdir_run.
  destruct p as [|c p]; [apply rtc_refl|].
  destruct (node_at (files w) (parent (c :: p))) as [[]|] eqn:Hd; try apply rtc_refl.
  destruct (files w !! (c :: p)) eqn:Hl; [apply rtc_refl|].
  apply rtc_once. cbn [snd files with_files push].
  apply ts_add; [done| |done|by apply Hp]. unfold is_dir. by rewrite Hd.
Qed.

Lemma mkdir_exist_ok_files p w : files (mkdir_exist_ok p w).2 = files (os_mkdir p w).2.
Proof.
  unfold mkdir_exist_ok. destruct (os_mkdir p w) as [[[]|e] w']; [done|].
  destruct e; try done; cbn [snd]; by destruct (is_dir (files w') p).
Qed.

Lemma last_backup_skipped (rp : list string) :
  last rp = Some BACKUP_DIR -> should_skip (reverse rp) = true.
Proof.
  intros H. apply last_Some in H as [l ->]. rewrite reverse_app.
  apply (backup_path_skipped (reverse l)).
Qed.

Lemma steps_mkdir_parents_rev imgs rp w :
  rp = [] ∨ last rp = Some BACKUP_DIR ->
  rtc (tree_step imgs) (files w) (files (mkdir_parents_rev rp w).2).
Proof.
  revert w. induction rp as [|c rp IH]; intros w Hrp.
  - cbn [mkdir_parents_rev].
    pose proof (steps_os_mkdir imgs (reverse []) w ltac:(done)) as H.
    destruct (os_mkdir (reverse []) w) as [[[]|e] w1]; [done|].
    destruct e; try done; cbn [snd] in *; by destruct (is_dir (files w1) (reverse [])).
  - assert (reverse (c :: rp) ≠ [] -> should_skip (reverse (c :: rp)) = true) as Hsk.
    { intros _. destruct Hrp as [?|Hl]; [done|]. by apply last_backup_skipped. }
    assert (rp = [] ∨ last rp = Some BACKUP_DIR) as Hrp'.
    { destruct rp as [|c' rp']; [by left|right]. by destruct Hrp as [?|Hl]. }
    cbn [mkdir_parents_rev].
    pose proof (steps_os_mkdir imgs (reverse (c :: rp)) w Hsk) as H.
    destruct (os_mkdir (reverse (c :: rp)) w) as [[[]|e] w1]; [done|].
    cbn [snd] in H.
    destruct e; try (cbn [snd]; by destruct (is_dir (files w1) (reverse (c :: rp)))).
    unfold bind. etrans; [exact H|].
    pose proof (IH w1 Hrp') as H1.
    destruct (mkdir_parents_rev rp w1) as [[[]|e] w2]; [|done].
    cbn [snd] in H1. etrans; [exact H1|].
    rewrite mkdir_exist_ok_files. by apply steps_os_mkdir.
Qed.

Lemma steps_backup imgs src w :
  rtc (tree_step imgs) (files w) (files (backup src w).2).
Proof.
  rewrite backup_unfold.
  assert (reverse (parent (backup_path src)) = []
          ∨ last (reverse (parent (backup_path src))) = Some BACKUP_DIR) as Hl.
  { unfold backup_path, parent. destruct src as [|c src]; [by left|right].
    cbn [removelast]. by rewrite reverse_cons, last_snoc. }
  pose proof (steps_mkdir_parents_rev imgs _ w Hl) as H.
  fold (mkdir_parents (parent (backup_path src))) in H.
  destruct (mkdir_parents (parent (backup_path src)) w) as [[[]|e] w1]; [|done].
  cbn [snd] in H. case_bool_decide as Hex; [done|].
  assert (node_at (files w1) (backup_path src) = None) as Hnone.
  { destruct (node_at (files w1) (backup_path src)) eqn:E; [|done].
    exfalso. apply Hex. by eexists. }
  rewrite copy2_fresh by done. cbn [files push].
  destruct (node_at (files w1) src) as [[d m|]|]; try done.
  destruct (node_at (files w1) (parent (backup_path src))) as [[]|] eqn:Hd; try done.
  etrans; [exact H|]. apply rtc_once. cbn [snd files with_files push].
  apply ts_add; [done| | |apply backup_path_skipped].
  - unfold is_dir. by rewrite Hd.
  - by rewrite <- backup_path_lookup.
Qed.

Section TreeChanges.
Variable webp : Z -> list byte -> option (list byte).
Variable decode : list byte -> text.
Variable encode : text -> list byte.
Variable dir_size : Z.

Lemma steps_write_bytes imgs p data w :
  rewritable imgs p ->
  rtc (tree_step imgs) (files w) (files (write_bytes p data w).2).
Proof.
  intros Hrw. rewrite write_bytes_run.
  destruct p as [|c p]; [apply rtc_refl|].
  destruct (node_at (files w) (parent (c :: p))) as [[]|] eqn:Hd; try apply rtc_refl.
  assert (files w !! (c :: p) ≠ Some Dir ->
          rtc (tree_step imgs) (files w) (<[c :: p := File data (clock w)]> (files w))) as H.
  { intros Hn. apply rtc_once, ts_write; [done| |done|done]. unfold is_dir. by rewrite Hd. }
  destruct (files w !! (c :: p)) as [[]|] eqn:Hl; [by apply H|apply rtc_refl|by apply H].
Qed.

Lemma steps_convert_to_webp imgs src w :
  src ∈ imgs -> should_skip src = false ->
  rtc (tree_step imgs) (files w) (files (convert_to_webp webp src w).2).
Proof.
  intros Hin Hsk. rewrite convert_to_webp_run.
  destruct (with_suffix src ".webp") as [dst|] eqn:Hdst; [|apply rtc_refl].
  rewrite read_bytes_run. cbn [files push].
  destruct (node_at (files w) src) as [[d m|]|]; try apply rtc_refl.
  destruct (webp QUALITY d) as [out|]; [|apply rtc_refl].
  pose proof (steps_write_bytes imgs dst out (push (EvSaveImage dst) (push (EvOpenImage src) w)))
    as H.
  destruct (write_bytes dst out (push (EvSaveImage dst) (push (EvOpenImage src) w)))
    as [[[]|e] w2]; apply H; (split; [by eapply with_suffix_skip|left; by exists src]).
Qed.

Lemma steps_process_image imgs acc src w :
  src ∈ imgs -> should_skip src = false ->
  rtc (tree_step imgs) (files w) (files (process_image webp dir_size acc src w).2).
Proof.
  intros Hin Hsk. rewrite process_image_run, stat_size_run.
  assert (∀ (r : outcome Z), rtc (tree_step imgs) (files w)
            (files (match r with
                    | Raise e => (@Raise totals e, push (EvStat src) w)
                    | Ret size_before =>
        match backup src (push (EvStat src) w) with
        | (Raise e, w2) => (Raise e, w2)
        | (Ret _, w2) =>
            match convert_to_webp webp src w2 with
            | (Raise e, w3) =>
                if is_Exception e
                then (Ret acc, printed (MsgError (name src) e) w3)
                else (Raise e, w3)
            | (Ret dst, w3) =>
                match stat_size dir_size dst w3 with
                | (Raise e, w4) => (Raise e, w4)
                | (Ret size_after, w4) =>
                    if bool_decide (size_before = 0)
                    then (Raise ZeroDivisionError, w4)
                    else
                      match unlink src w4 with
                      | (Raise e, w5) => (Raise e, w5)
                      | (Ret _, w5) =>
                          (Ret (mkTotals (total_before acc + size_before)
                                         (total_after acc + size_after)
                                         (<[to_slashes (str_path src) :=
                                              to_slashes (str_path dst)]> (renamed acc))),
                           printed (MsgConverted (name src) size_before size_after) w5)
                      end
                end
            end
        end end).2)) as Hgen.
  { intros [sb|e]; [|apply rtc_refl].
    pose proof (steps_backup imgs src (push (EvStat src) w)) as H2.
    destruct (backup src (push (EvStat src) w)) as [[[]|e] w2]; [|exact H2].
    cbn [snd files push] in H2.
    pose proof (steps_convert_to_webp imgs src w2 Hin Hsk) as H3.
    destruct (convert_to_webp webp src w2) as [[dst|e] w3]; cbn [snd] in H3.
    2:{ etrans; [exact H2|]. by destruct (is_Exception e). }
    pose proof (stat_size_files dir_size dst w3) as H4.
    destruct (stat_size dir_size dst w3) as [r4 w4].
    specialize (H4 _ _ eq_refl). subst w4.
    assert (rtc (tree_step imgs) (files w) (files (push (EvStat dst) w3))) as H5.
    { etrans; [exact H2|exact H3]. }
    destruct r4 as [sa|e]; [|exact H5].
    case_bool_decide; [exact H5|].
    rewrite unlink_run. cbn [files push].
    destruct (node_at (files w3) src) as [[d m|]|] eqn:Hs; try exact H5.
    etrans; [exact H5|]. apply rtc_once. cbn [snd files printed with_files push].
    eapply ts_unlink; [|done]. destruct src; [done|]. exact Hs. }
  destruct (node_at (files w) src) as [[d m|]|].
  - apply (Hgen (Ret _)).
  - apply (Hgen (Ret _)).
  - apply (Hgen (Raise _)).
Qed.

Lemma steps_process_images imgs acc images w :
  images ⊆ imgs -> Forall (fun p => should_skip p = false) imgs ->
  rtc (tree_step imgs) (files w) (files (process_images webp dir_size acc images w).2).
Proof.
  intros Hsub Hsk. revert acc w. induction images as [|src more IH]; intros acc w.
  { apply rtc_refl. }
  rewrite process_images_cons.
  assert (src ∈ imgs) as Hin by (apply Hsub; left).
  pose proof (steps_process_image imgs acc src w Hin
                (proj1 (Forall_forall _ _) Hsk _ Hin)) as H.
  destruct (process_image webp dir_size acc src w) as [[acc'|e] w1]; [|exact H].
  etrans; [exact H|]. apply IH. intros x Hx. apply Hsub. by right.
Qed.

Lemma steps_patch_html_files imgs htmls rn w :
  Forall (fun p => is_html_name (name p) = true ∧ should_skip p = false) htmls ->
  rtc (tree_step imgs) (files w) (files (patch_html_files decode encode htmls rn w).2).
Proof.
  intros Hh. revert w. induction Hh as [|p more [Hn Hs] _ IH]; intros w.
  { apply rtc_refl. }
  rewrite patch_html_files_cons, read_text_run.
  destruct (node_at (files w) p) as [[d m|]|]; try apply rtc_refl.
  case_bool_decide; [apply (IH (push (EvReadText p) w))|].
  pose proof (steps_write_bytes imgs p (encode (sub (decode d)))
                (push (EvWriteText p) (push (EvReadText p) w)) ltac:(by split; [|right])) as Hw.
  destruct (write_bytes p (encode (sub (decode d)))
              (push (EvWriteText p) (push (EvReadText p) w))) as [[[]|e] w2]; [|exact Hw].
  etrans; [exact Hw|]. apply (IH (printed (MsgHtmlUpdated p) w2)).
Qed.

Lemma images_of_not_skipped (t : tree) :
  Forall (fun p => should_skip p = false) (images_of t).
Proof. apply Forall_forall. intros p Hp. by apply images_of_spec in Hp as (_ & _ & _ & ?). Qed.

(** Whatever [main] returns or raises, the tree it leaves is reached
    from the tree it found by such changes. *)
Lemma main_steps w :
  rtc (tree_step (images_of (files w))) (files w)
      (files (main webp decode encode dir_size w).2).
Proof.
  rewrite main_run. set (imgs := images_of (files w)).
  assert (rtc (tree_step imgs) (files w)
            (files (match process_images webp dir_size (mkTotals 0 0 ∅) imgs
                (printed (MsgFound (length imgs)) w) with
        | (Raise e, w1) => (@Raise unit e, w1)
        | (Ret acc, w1) =>
            match
              (if negb (bool_decide (html_files_of (files w1) = [])) &&
                  negb (bool_decide (renamed acc = ∅))
               then patch_html_files decode encode (html_files_of (files w1))
                      (renamed acc) (printed MsgPatching w1)
               else (Ret tt, w1))
            with
            | (Raise e, w2) => (Raise e, w2)
            | (Ret _, w2) =>
                (Ret tt, printed (MsgSummary (total_before acc) (total_after acc)) w2)
            end
        end).2)) as H.
  { pose proof (steps_process_images imgs (mkTotals 0 0 ∅) imgs
                  (printed (MsgFound (length imgs)) w) ltac:(done)
                  (images_of_not_skipped _)) as H1.
    destruct (process_images webp dir_size (mkTotals 0 0 ∅) imgs
                (printed (MsgFound (length imgs)) w)) as [[acc|e] w1]; [|exact H1].
    cbn [snd files printed] in H1.
    destruct (negb (bool_decide (html_files_of (files w1) = [])) &&
              negb (bool_decide (renamed acc = ∅))); [|exact H1].
    pose proof (steps_patch_html_files imgs (html_files_of (files w1)) (renamed acc)
                  (printed MsgPatching w1)) as H2.
    destruct (patch_html_files decode encode (html_files_of (files w1)) (renamed acc)
                (printed MsgPatching w1)) as [[[]|e] w2];
      (etrans; [exact H1|]; apply H2; apply Forall_forall; intros p Hp;
       by apply html_files_of_spec in Hp as (_ & ? & ?)). }
  destruct imgs; [apply rtc_refl|exact H].
Qed.

End TreeChanges.

Lemma html_not_image n : is_html_name n = true -> is_image_name n = false.
Proof.
  unfold is_html_name, is_image_name, suffix. intros H. apply bool_decide_eq_true in H.
  assert (∃ pre, chars n = pre ++ "."%char :: chars "html") as [pre Hc].
  { exists (take (length (chars n) - 5) (chars n)).
    change ("."%char :: chars "html") with (chars ".html").
    rewrite <- H. symmetry. apply take_drop. }
  rewrite Hc, rfind_dot_app by reflexivity.
  destruct (bool_decide (0 < length pre < length (pre ++ "."%char :: chars "html") - 1)%nat).
  - rewrite drop_app_length. reflexivity.
  - reflexivity.
Qed.

Lemma rewritable_not_image imgs x : rewritable imgs x -> is_image_name (name x) = false.
Proof.
  intros [_ [(src & _ & H)|H]]; [by eapply with_suffix_image|by apply html_not_image].
Qed.

(** A path that is one of the images, or looks like one, is not written
    to and does not come back once it is gone. *)
Lemma steps_image_entry imgs t t' x :
  Forall (fun p => should_skip p = false) imgs ->
  rtc (tree_step imgs) t t' ->
  is_image_name (name x) = true -> should_skip x = false ->
  t' !! x = t !! x ∨ t' !! x = None.
Proof.
  intros Himgs H Hn Hs.
  destruct (steps_entry_change imgs t t' x Himgs H) as [E|H1 H2|d m H1 H2 H3|d m H1 H2 H3].
  - by left.
  - congruence.
  - by right.
  - apply rewritable_not_image in H1. congruence.
Qed.

Section RunChanges.
Variable webp : Z -> list byte -> option (list byte).
Variable decode : list byte -> text.
Variable encode : text -> list byte.
Variable dir_size : Z.

(** X14. Whatever [main] returns or raises, an entry of the tree differs
    afterwards in one of three ways only: it is new and lies in an
    excluded directory (the backup); it was one of the images found and
    is gone; or it is a file written at the WebP sibling of an image
    found or at a path named like a markup file, outside the excluded
    directories and not over a directory. *)
Theorem main_changes_only w x :
  let t := files w in
  let t' := files (main webp decode encode dir_size w).2 in
  t' !! x = t !! x ∨
  (should_skip x = true ∧ t !! x = None) ∨
  (x ∈ images_of t ∧ is_file t x = true ∧ t' !! x = None) ∨
  (rewritable (images_of t) x ∧ t !! x ≠ Some Dir ∧ is_file t' x = true).
Proof.
  intros t t'.
  destruct (steps_entry_change (images_of t) t t' x (images_of_not_skipped t)
              (main_steps webp decode encode dir_size w))
    as [E|H1 H2|d m H1 H2 H3|d m H1 H2 H3].
  - by left.
  - right; left. done.
  - right; right; left. split_and!; [done| |done].
    by apply images_of_spec in H1 as (_ & ? & _).
  - right; right; right. split_and!; [done..|].
    unfold is_file. destruct x as [|c x']; [|cbn [node_at]; by rewrite H3].
    destruct H1 as [_ [(src & _ & Hsrc)|Hh]].
    + by apply with_suffix_parent in Hsrc as [_ ?].
    + done.
Qed.

(** X15. [main] never changes or removes an entry of an excluded
    directory: what is in the backup directory, in [.git] or in
    [node_modules] before the run is there, as it was, after it. *)
Theorem main_keeps_excluded_entries w x n :
  should_skip x = true -> files w !! x = Some n ->
  files (main webp decode encode dir_size w).2 !! x = Some n.
Proof.
  intros Hs Hx.
  destruct (steps_entry_change (images_of (files w)) (files w) _ x
              (images_of_not_skipped _) (main_steps webp decode encode dir_size w))
    as [E|H1 H2|d m H1 H2 H3|d m [H1 _] H2 H3]; try congruence.
  apply images_of_spec in H1 as (_ & _ & _ & ?). congruence.
Qed.

(** X16. A run makes no image: every image the locator would find
    after [main] was found before it, and is the file it was. *)
Theorem main_makes_no_image w x :
  x ∈ images_of (files (main webp decode encode dir_size w).2) ->
  x ∈ images_of (files w) ∧
  files (main webp decode encode dir_size w).2 !! x = files w !! x.
Proof.
  intros Hx. apply images_of_spec in Hx as (Hr & Hf & Hn & Hs).
  apply rglob_spec in Hr as [Hne Hsome].
  destruct (steps_image_entry (images_of (files w)) (files w) _ x
              (images_of_not_skipped _) (main_steps webp decode encode dir_size w) Hn Hs)
    as [E|E]; [|rewrite E in Hsome; by destruct Hsome].
  split; [|done]. apply images_of_spec. split_and!; try done.
  - apply rglob_spec. by rewrite <- E.
  - unfold is_file in *. destruct x; [done|]. cbn [node_at] in *. by rewrite <- E.
Qed.


End RunChanges.


Lemma sum_before_app l1 l2 : sum_before (l1 ++ l2) = sum_before l1 + sum_before l2.
Proof. induction l1 as [|[] l1 IH]; simpl; lia. Qed.

Lemma sum_after_app l1 l2 : sum_after (l1 ++ l2) = sum_after l1 + sum_after l2.
Proof. induction l1 as [|[] l1 IH]; simpl; lia. Qed.

Section LoopFacts.
Variable webp : Z -> list byte -> option (list byte).
Variable decode : list byte -> text.
Variable encode : text -> list byte.
Variable dir_size : Z.

(** A turn of the loop that returns: either the conversion failed, or
    the image is converted, sized, removed and counted. *)
Lemma process_image_ret acc src w acc' w' :
  process_image webp dir_size acc src w = (Ret acc', w') ->
  (acc' = acc ∧ files w ⊆ files w' ∧ clock w' = clock w ∧
   ∃ e, console w' = MsgError (name src) e :: console w) ∨
  (∃ dst d m out,
     with_suffix src ".webp" = Some dst ∧ files w !! src = Some (File d m) ∧
     webp QUALITY d = Some out ∧ d ≠ [] ∧
     acc' = mkTotals (total_before acc + Z.of_nat (length d))
                     (total_after acc + Z.of_nat (length out))
                     (<[to_slashes (str_path src) := to_slashes (str_path dst)]>
                        (renamed acc)) ∧
     console w' = MsgConverted (name src) (Z.of_nat (length d)) (Z.of_nat (length out))
                    :: console w ∧
     clock w' = clock w + 1 ∧
     files w' !! src = None ∧
     (dst ≠ src -> files w' !! dst = Some (File out (clock w))) ∧
     is_Some (files w' !! backup_path src) ∧
     (files w !! backup_path src = None ->
      files w' !! backup_path src = Some (File d m))).
Proof.
  intros H. rewrite process_image_run in H.
  destruct (stat_size dir_size src w) as [[sb|e] w1] eqn:E1; [|done].
  pose proof (stat_size_files dir_size _ _ _ _ E1) as ->.
  destruct (backup src (push (EvStat src) w)) as [[[]|e] w2] eqn:E2; [|done].
  apply backup_post in E2 as [[Hc Ho _ Hg _] Hdone]. specialize (Hdone eq_refl).
  destruct Hdone as [Hthere _ Hcopy].
  cbn [push files clock console] in *.
  pose proof (convert_to_webp_result webp src w2) as Hcv.
  destruct (convert_to_webp webp src w2) as [[dst|e] w3] eqn:E3; cbn [fst snd] in Hcv.
  2:{ apply convert_raise in Hcv as (He & Hf & Hck & Hcon & _). rewrite He in H.
      injection H as <- <-. left. cbn [printed files clock console].
      rewrite Hf, Hck, Hcon, Ho, Hc. split_and!; try done. by exists e. }
  inversion Hcv as [| | | |dst' d m out Hdst Hsrc Hw]; subst. clear Hcv.
  destruct (with_suffix_Some _ _ Hdst) as [Hne _].
  destruct (with_suffix_parent _ _ Hdst) as [_ Hdne].
  rewrite stat_size_run in E1. rewrite node_at_lookup in E1 by done.
  destruct (files w !! src) as [n|] eqn:Hw0; [|done].
  pose proof (lookup_weaken _ _ _ _ Hw0 Hg) as Hw2. rewrite Hsrc in Hw2.
  injection Hw2 as <-. injection E1 as <-.
  rewrite stat_size_run in H. cbn [files push] in H.
  rewrite node_at_lookup, lookup_insert_eq in H by done.
  case_bool_decide as Hz; [done|].
  rewrite unlink_run in H. cbn [files push] in H.
  rewrite node_at_lookup in H by done.
  assert (∃ d' m', <[dst := File out (clock w2)]> (files w2) !! src = Some (File d' m'))
    as (d' & m' & Hl).
  { destruct (decide (dst = src)) as [->|?].
    - rewrite lookup_insert_eq. eauto.
    - rewrite lookup_insert_ne by done. eauto. }
  rewrite Hl in H. injection H as <- <-. right.
  assert (backup_path src ≠ src) as H1.
  { intros E. apply (f_equal length) in E. rewrite backup_path_length in E. lia. }
  assert (dst ≠ backup_path src) as H2.
  { intros E. apply (f_equal length) in E.
    rewrite backup_path_length, (with_suffix_length _ _ Hdst) in E. lia. }
  exists dst, d, m, out. cbn [printed with_files push files clock console].
  rewrite Ho, Hc. split_and!; try done.
  - intros ->. by apply Hz.
  - apply lookup_delete_eq.
  - intros Hds. rewrite lookup_delete_ne by done. apply lookup_insert_eq.
  - rewrite lookup_delete_ne, lookup_insert_ne by done. done.
  - intros Hfree. destruct (Hcopy Hfree) as (d2 & m2 & Hs2 & Hb2).
    injection Hs2 as <- <-.
    rewrite lookup_delete_ne, lookup_insert_ne by done. done.
Qed.

(** The loop, when it returns: the lines it printed account for the
    totals; if none of them is an error line, every image is gone; if
    the codec takes nothing, nothing is counted or renamed. *)
Lemma process_images_ret imgs images acc w acc' w' :
  images ⊆ imgs ->
  Forall (fun p => is_image_name (name p) = true ∧ should_skip p = false) imgs ->
  process_images webp dir_size acc images w = (Ret acc', w') ->
  ∃ l, console w' = l ++ console w ∧
       total_before acc' = total_before acc + sum_before l ∧
       total_after acc' = total_after acc + sum_after l ∧
       Forall (fun msg => match msg with
                          | MsgError _ _ | MsgConverted _ _ _ => True
                          | _ => False
                          end) l ∧
       (forallb is_error l = false -> renamed acc' ≠ ∅) ∧
       (forallb is_error l = true ->
        acc' = acc ∧ files w ⊆ files w' ∧ clock w' = clock w) ∧
       (existsb is_error l = false -> ∀ src, src ∈ images -> files w' !! src = None).
Proof.
  intros Hsub Himgs. revert acc w.
  induction images as [|src more IH]; intros acc w H.
  { injection H as <- <-. exists []. cbn. split_and!; try done; try lia.
    intros _ src Hsrc. by apply elem_of_nil in Hsrc. }
  rewrite process_images_cons in H.
  destruct (process_image webp dir_size acc src w) as [[acc1|e] w1] eqn:E1; [|done].
  assert (more ⊆ imgs) as Hsub' by (intros x Hx; apply Hsub; by right).
  destruct (IH Hsub' _ _ H) as (l & Hl & Hb & Ha & Hk & Hren & Hall & Hnone).
  pose proof (steps_process_images webp dir_size imgs acc1 more w1 Hsub'
                ltac:(eapply Forall_impl; [exact Himgs|by intros ? [_ ?]])) as Hst.
  rewrite H in Hst. cbn [snd] in Hst.
  apply process_image_ret in E1
    as [(-> & Hg & Hck & e & Hcon)|(dst & d & m & out & _ & _ & _ & _ & -> & Hcon & _ & Hgone & _)].
  - exists (l ++ [MsgError (name src) e]).
    rewrite Hl, Hcon, <- (assoc (++)), sum_before_app, sum_after_app,
      forallb_app, existsb_app. cbn.
    rewrite andb_true_r, orb_true_r. split_and!; try done; try lia.
    + apply Forall_app. split; [done|]. by constructor.
    + intros Hf. destruct (Hall Hf) as (-> & Hg' & Hck'). split; [done|].
      split; [by etrans|congruence].
  - exists (l ++ [MsgConverted (name src) (Z.of_nat (length d)) (Z.of_nat (length out))]).
    rewrite Hl, Hcon, <- (assoc (++)), sum_before_app, sum_after_app,
      forallb_app, existsb_app. cbn [sum_before sum_after forallb existsb is_error].
    cbn [total_before total_after] in Hb, Ha.
    rewrite andb_false_r, orb_false_r. split_and!; try done; try lia.
    + apply Forall_app. split; [done|]. by constructor.
    + intros _. destruct (forallb is_error l) eqn:Hf.
      * destruct (Hall eq_refl) as [-> _]. cbn [renamed]. apply insert_non_empty.
      * by apply Hren.
    + intros Hex x Hx. apply elem_of_cons in Hx as [->|Hx]; [|by apply Hnone].
      assert (src ∈ imgs) as Hin by (apply Hsub; left).
      destruct (proj1 (Forall_forall _ _) Himgs _ Hin) as [Hn Hs].
      destruct (steps_image_entry imgs _ _ src
                  ltac:(eapply Forall_impl; [exact Himgs|by intros ? [_ ?]]) Hst Hn Hs)
        as [E|E]; [by rewrite E|done].
Qed.

Lemma images_of_images (t : tree) :
  Forall (fun p => is_image_name (name p) = true ∧ should_skip p = false) (images_of t).
Proof.
  apply Forall_forall. intros p Hp. by apply images_of_spec in Hp as (_ & _ & ? & ?).
Qed.

(** The lines [patch_html_files] prints are not about sizes. *)
Lemma patch_html_files_console htmls rn w :
  ∃ l, console (patch_html_files decode encode htmls rn w).2 = l ++ console w ∧
       sum_before l = 0 ∧ sum_after l = 0 ∧ existsb is_error l = false.
Proof.
  revert w. induction htmls as [|p more IH]; intros w.
  { by exists []. }
  rewrite patch_html_files_cons, read_text_run.
  destruct (node_at (files w) p) as [[d m|]|]; [|by exists []|by exists []].
  case_bool_decide.
  { apply (IH (push (EvReadText p) w)). }
  rewrite write_bytes_push.
  destruct (write_bytes_cases p (encode (sub (decode d))) (push (EvReadText p) w))
    as [(e & _ & E)|E]; rewrite E; [by exists []|].
  destruct (IH (printed (MsgHtmlUpdated p)
                  (mkWorld (<[p := File (encode (sub (decode d))) (clock (push (EvReadText p) w))]>
                              (files (push (EvReadText p) w)))
                           (clock (push (EvReadText p) w) + 1)
                           (console (push (EvReadText p) w))
                           ((EvWriteText p, files (push (EvReadText p) w))
                              :: history (push (EvReadText p) w)))))
    as (l & Hl & Hb & Ha & He).
  exists (l ++ [MsgHtmlUpdated p]). rewrite Hl. cbn [printed console push].
  rewrite <- (assoc (++)), sum_before_app, sum_after_app, existsb_app, Hb, Ha, He.
  done.
Qed.

End LoopFacts.


Section Run.
Variable webp : Z -> list byte -> option (list byte).
Variable decode : list byte -> text.
Variable encode : text -> list byte.
Variable dir_size : Z.


(** X19. The totals of the summary are the sums of the sizes on the
    lines printed for the converted images. *)
Theorem main_summary_adds_up w w' :
  main webp decode encode dir_size w = (Ret tt, w') ->
  images_of (files w) ≠ [] ->
  ∃ l, console w' = MsgSummary (sum_before l) (sum_after l) :: l ++ console w.
Proof.
  intros H Hne. rewrite main_run in H.
  pose proof (images_of_images (files w)) as Himgs.
  destruct (images_of (files w)) as [|i0 imgs0]; [done|]. cbv beta iota zeta in H.
  set (imgs := i0 :: imgs0) in *.
  destruct (process_images webp dir_size (mkTotals 0 0 ∅) imgs
              (printed (MsgFound (length imgs)) w)) as [[acc|e] w1] eqn:E1; [|done].
  destruct (process_images_ret webp dir_size imgs imgs _ _ _ _ ltac:(done) Himgs E1)
    as (l1 & Hl1 & Hb & Ha & _).
  cbn [total_before total_after printed console] in *.
  assert (∃ l2 w2, console w2 = l2 ++ console w1 ∧ sum_before l2 = 0 ∧ sum_after l2 = 0 ∧
            w' = printed (MsgSummary (total_before acc) (total_after acc)) w2)
    as (l2 & w2 & Hl2 & Hb2 & Ha2 & ->).
  { destruct (negb (bool_decide (html_files_of (files w1) = [])) &&
              negb (bool_decide (renamed acc = ∅))).
    - destruct (patch_html_files_console decode encode (html_files_of (files w1))
                  (renamed acc) (printed MsgPatching w1)) as (l2 & Hl2 & Hb2 & Ha2 & _).
      destruct (patch_html_files decode encode (html_files_of (files w1)) (renamed acc)
                  (printed MsgPatching w1)) as [[[]|e] w2]; [|done].
      exists (l2 ++ [MsgPatching]), w2. cbn [snd printed console] in Hl2.
      rewrite Hl2, <- (assoc (++)), sum_before_app, sum_after_app, Hb2, Ha2.
      split_and!; try done. by injection H as <-.
    - exists [], w1. split_and!; try done. by injection H as <-. }
  exists (l2 ++ l1 ++ [MsgFound (length imgs)]). cbn [printed console].
  rewrite Hl2, Hl1, !sum_before_app, !sum_after_app, Hb2, Ha2, Hb, Ha.
  cbn [sum_before sum_after]. rewrite <- !(assoc (++)). cbn [app].
  by rewrite !Z.add_0_r, !Z.add_0_l.
Qed.

(** X20. After a run that returns without an error line no image is
    left, so that a second run finds nothing to do and only says so. *)
Theorem main_clean_run_leaves_no_image w w' :
  main webp decode encode dir_size w = (Ret tt, w') ->
  existsb is_error (console w') = false ->
  images_of (files w') = [] ∧
  main webp decode encode dir_size w' = (Ret tt, printed MsgNoImages w').
Proof.
  intros H Herr.
  assert (images_of (files w') = []) as Hnone; [|split; [done|by rewrite main_run, Hnone]].
  assert (∀ x, x ∈ images_of (files w) -> files w' !! x = None) as Hgone.
  { rewrite main_run in H.
    pose proof (images_of_images (files w)) as Himgs.
    pose proof (images_of_not_skipped (files w)) as Hskip.
    revert H Himgs Hskip. generalize (images_of (files w)) as imgs.
    intros imgs H Himgs Hskip.
    destruct imgs as [|i0 imgs0] eqn:Ei; [intros x Hx; by apply elem_of_nil in Hx|].
    rewrite <- Ei in *. cbv beta iota zeta in H.
    assert (H' : match process_images webp dir_size (mkTotals 0 0 ∅) imgs
                (printed (MsgFound (length imgs)) w) with
        | (Raise e, w1) => (@Raise unit e, w1)
        | (Ret acc, w1) =>
            match
              (if negb (bool_decide (html_files_of (files w1) = [])) &&
                  negb (bool_decide (renamed acc = ∅))
               then patch_html_files decode encode (html_files_of (files w1))
                      (renamed acc) (printed MsgPatching w1)
               else (Ret tt, w1))
            with
            | (Raise e, w2) => (Raise e, w2)
            | (Ret _, w2) =>
                (Ret tt, printed (MsgSummary (total_before acc) (total_after acc)) w2)
            end
        end = (Ret tt, w')) by (rewrite Ei in *; exact H).
    clear H Ei. rename H' into H.
    destruct (process_images webp dir_size (mkTotals 0 0 ∅) imgs
                (printed (MsgFound (length imgs)) w)) as [[acc|e] w1] eqn:E1; [|done].
    destruct (process_images_ret webp dir_size imgs imgs _ _ _ _ ltac:(done)
                Himgs E1) as (l1 & Hl1 & _ & _ & _ & _ & _ & Hno).
    assert (rtc (tree_step imgs) (files w1) (files w') ∧
            ∃ l2, console w' = l2 ++ console w1) as [Hst2 (l2 & Hl2)].
    { destruct (negb (bool_decide (html_files_of (files w1) = [])) &&
                negb (bool_decide (renamed acc = ∅))).
      - pose proof (steps_patch_html_files decode encode imgs (html_files_of (files w1))
                      (renamed acc) (printed MsgPatching w1)) as Hp.
        destruct (patch_html_files_console decode encode (html_files_of (files w1))
                    (renamed acc) (printed MsgPatching w1)) as (l2 & Hl2 & _).
        destruct (patch_html_files decode encode (html_files_of (files w1)) (renamed acc)
                    (printed MsgPatching w1)) as [[[]|e] w2]; [|done].
        injection H as <-. cbn [snd printed files console] in *. split.
        + apply Hp. apply Forall_forall. intros p Hp'.
          by apply html_files_of_spec in Hp' as (_ & ? & ?).
        + exists (MsgSummary (total_before acc) (total_after acc) :: l2 ++ [MsgPatching]).
          rewrite Hl2. by rewrite <- app_comm_cons, <- (assoc (++)).
      - injection H as <-. split; [apply rtc_refl|].
        by exists [MsgSummary (total_before acc) (total_after acc)]. }
    rewrite Hl2, Hl1, !existsb_app in Herr.
    apply orb_false_iff in Herr as [_ Herr]. apply orb_false_iff in Herr as [Herr _].
    intros x Hx. specialize (Hno Herr x Hx).
    destruct (proj1 (Forall_forall _ _) Himgs _ Hx) as [Hn Hs].
    destruct (steps_image_entry imgs _ _ x Hskip Hst2 Hn Hs)
      as [E|E]; [by rewrite E|done]. }
  pose proof (main_steps webp decode encode dir_size w) as Hst. rewrite H in Hst.
  cbn [snd] in Hst.
  destruct (images_of (files w')) as [|x l] eqn:E; [done|]. exfalso.
  assert (x ∈ images_of (files w')) as Hx by (rewrite E; left).
  apply images_of_spec in Hx as (Hr & Hf & Hn & Hs).
  apply rglob_spec in Hr as [Hne Hsome].
  destruct (steps_image_entry (images_of (files w)) _ _ x (images_of_not_skipped _) Hst Hn Hs)
    as [E'|E']; [|rewrite E' in Hsome; by destruct Hsome].
  assert (x ∈ images_of (files w)) as Hx.
  { apply images_of_spec. split_and!; try done.
    - apply rglob_spec. by rewrite <- E'.
    - unfold is_file in *. destruct x; [done|]. cbn [node_at] in *. by rewrite <- E'. }
  rewrite (Hgone x Hx) in Hsome. by destruct Hsome.
Qed.


End Run.

Lemma is_file_lookup (t : tree) p :
  is_file t p = true ↔ p ≠ [] ∧ ∃ d m, t !! p = Some (File d m).
Proof.
  unfold is_file. destruct p as [|c p]; cbn [node_at].
  - split; [done|]. by intros [? _].
  - destruct (t !! (c :: p)) as [[d m|]|]; split; try done; try (intros [_ (? & ? & ?)]; done).
    intros _. split; [done|]. eauto.
Qed.

Section Patch.
Variable webp : Z -> list byte -> option (list byte).
Variable decode : list byte -> text.
Variable encode : text -> list byte.
Variable dir_size : Z.

(** X22. On a well-formed tree, given regular files, each once,
    [patch_html_files] returns, and it has done exactly this: a file
    whose text the substitution changes holds the encoded new text and
    a modification time within the run; every other entry is as it
    was. *)
Theorem patch_html_files_spec htmls rn w :
  NoDup htmls -> well_formed (files w) = true ->
  (∀ p, p ∈ htmls -> is_file (files w) p = true) ->
  ∃ w', patch_html_files decode encode htmls rn w = (Ret tt, w') ∧
    clock w ≤ clock w' ∧
    (∀ x, x ∉ htmls -> files w' !! x = files w !! x) ∧
    (∀ p data mtime, p ∈ htmls -> files w !! p = Some (File data mtime) ->
       if bool_decide (sub (decode data) = decode data)
       then files w' !! p = Some (File data mtime)
       else ∃ mtime', clock w ≤ mtime' < clock w' ∧
              files w' !! p = Some (File (encode (sub (decode data))) mtime')).
Proof.
  intros Hnd. revert w. induction Hnd as [|p more Hp _ IH]; intros w Hwf Hfiles.
  { exists w. split_and!; try done. intros p data mtime Hin. by apply elem_of_nil in Hin. }
  destruct (proj1 (is_file_lookup _ _) (Hfiles p ltac:(left))) as (Hne & d & m & Hl).
  rewrite patch_html_files_cons, read_text_run, node_at_lookup, Hl by done.
  case_bool_decide as Hsub.
  - destruct (IH (push (EvReadText p) w) Hwf) as (w' & E & Hc & Hout & Hin).
    { intros q Hq. apply Hfiles. by right. }
    cbn [push files clock] in *. exists w'. split_and!; try done.
    + intros x Hx. apply Hout. intros ?. apply Hx. by right.
    + intros q data mtime Hq Hlq. apply elem_of_cons in Hq as [->|Hq]; [|by apply Hin].
      rewrite Hl in Hlq. injection Hlq as <- <-.
      rewrite bool_decide_true by done. by rewrite Hout.
  - rewrite write_bytes_push, write_bytes_run.
    destruct (well_formed_parent _ p Hwf ltac:(by eexists)) as [_ Hd].
    unfold is_dir in Hd.
    destruct p as [|c p']; [done|].
    cbn [push files clock console history].
    destruct (node_at (files w) (parent (c :: p'))) as [[]|] eqn:Hpar; try done.
    rewrite Hl. cbv beta iota.
    set (w2 := printed _ _).
    destruct (IH w2) as (w' & E & Hc & Hout & Hin).
    { cbn [w2 printed files]. apply well_formed_insert; try done.
      - unfold is_dir. by rewrite Hpar.
      - by rewrite Hl. }
    { intros q Hq. cbn [w2 printed files]. apply is_file_lookup.
      destruct (proj1 (is_file_lookup _ _) (Hfiles q ltac:(by right))) as (? & ? & ? & ?).
      split; [done|]. rewrite lookup_insert_ne by (by intros <-). eauto. }
    cbn [w2 printed files clock] in *. exists w'. split_and!; try done; try lia.
    + intros x Hx. rewrite Hout by (intros ?; apply Hx; by right).
      apply lookup_insert_ne. intros <-. apply Hx. by left.
    + intros q data mtime Hq Hlq. apply elem_of_cons in Hq as [->|Hq].
      * rewrite Hl in Hlq. injection Hlq as <- <-.
        rewrite bool_decide_false by done. exists (clock w).
        split; [lia|]. rewrite Hout by done. apply lookup_insert_eq.
      * assert (c :: p' ≠ q) as Hne' by (by intros <-).
        specialize (Hin q data mtime Hq). rewrite lookup_insert_ne in Hin by done.
        specialize (Hin Hlq). case_bool_decide; [done|].
        destruct Hin as (m' & ? & ?). exists m'. split; [lia|done].
Qed.

End Patch.

Lemma steps_keeps_skipped (imgs : list path) (t t' : tree) (x : path) (n : node) :
  Forall (fun p => should_skip p = false) imgs ->
  rtc (tree_step imgs) t t' -> should_skip x = true ->
  t !! x = Some n -> t' !! x = Some n.
Proof.
  intros Himgs H Hs Hx.
  destruct (steps_entry_change imgs t t' x Himgs H)
    as [E|H1 H2|d m H1 H2 H3|d m [H1 _] H2 H3]; try congruence.
  rewrite Forall_forall in Himgs. apply Himgs in H1. congruence.
Qed.

Lemma steps_removed (imgs : list path) (t t' : tree) (x : path) :
  Forall (fun p => should_skip p = false) imgs ->
  rtc (tree_step imgs) t t' -> is_Some (t !! x) -> t' !! x = None -> x ∈ imgs.
Proof.
  intros Himgs H [n Hx] Hn.
  destruct (steps_entry_change imgs t t' x Himgs H)
    as [E|H1 H2|d m H1 H2 H3|d m H1 H2 H3]; [congruence|congruence|done|congruence].
Qed.

Section Safety.
Variable webp : Z -> list byte -> option (list byte).
Variable decode : list byte -> text.
Variable encode : text -> list byte.
Variable dir_size : Z.

(** A turn that raises has removed nothing. *)
Lemma process_image_raise_keeps acc src w e w' x :
  process_image webp dir_size acc src w = (Raise e, w') ->
  is_Some (files w !! x) -> is_Some (files w' !! x).
Proof.
  intros H Hx. rewrite process_image_run in H.
  destruct (stat_size dir_size src w) as [[sb|e1] w1] eqn:E1;
    pose proof (stat_size_files dir_size _ _ _ _ E1) as ->;
    [|by injection H as _ <-].
  destruct (backup src (push (EvStat src) w)) as [r2 w2] eqn:E2.
  apply backup_post in E2 as [[_ _ _ Hg _] _]. cbn [push files] in Hg.
  assert (is_Some (files w2 !! x)) as Hx2.
  { destruct Hx as [n Hn]. exists n. by eapply lookup_weaken. }
  destruct r2 as [[]|e2]; [|by injection H as _ <-].
  pose proof (convert_to_webp_result webp src w2) as Hcv.
  destruct (convert_to_webp webp src w2) as [[dst|e3] w3]; cbn [fst snd] in Hcv.
  2:{ apply convert_raise in Hcv as (_ & Hf & _).
      destruct (is_Exception e3); [done|]. injection H as _ <-. by rewrite Hf. }
  inversion Hcv as [| | | |dst' d m out Hdst Hsrc Hw]; subst. clear Hcv.
  set (w3 := mkWorld _ _ _ _) in *.
  assert (is_Some (files w3 !! x)) as Hx3.
  { cbn [w3 files]. destruct (decide (dst = x)) as [->|?].
    - rewrite lookup_insert_eq. by eexists.
    - by rewrite lookup_insert_ne. }
  destruct (stat_size dir_size dst w3) as [[sa|e4] w4] eqn:E4;
    pose proof (stat_size_files dir_size _ _ _ _ E4) as ->;
    [|by injection H as _ <-].
  case_bool_decide; [by injection H as _ <-|].
  rewrite unlink_run in H. cbn [push files] in H.
  destruct (node_at (files w3) src) as [[]|]; [done|by injection H as _ <-..].
Qed.

(** What a turn removes is its image, and the backup is in place. *)
Lemma process_image_removes acc src w x n :
  should_skip src = false ->
  files w !! x = Some n ->
  files (process_image webp dir_size acc src w).2 !! x = None ->
  x = src ∧
  is_Some (files (process_image webp dir_size acc src w).2 !! backup_path x) ∧
  (files w !! backup_path x = None ->
   files (process_image webp dir_size acc src w).2 !! backup_path x = Some n).
Proof.
  intros Hs Hx Hn.
  assert (x = src) as ->.
  { pose proof (steps_process_image webp dir_size [src] acc src w ltac:(left) Hs) as Hst.
    apply (steps_removed [src]) with (x := x) in Hst; [|by repeat constructor|by eexists|done].
    by apply list_elem_of_singleton in Hst. }
  split; [done|].
  destruct (process_image webp dir_size acc src w) as [[acc'|e] w'] eqn:E; cbn [snd] in *.
  - apply process_image_ret in E
      as [(_ & Hg & _)|(dst & d & m & out & _ & Hsrc & _ & _ & _ & _ & _ & _ & _ & Hb & Hc)].
    + rewrite (lookup_weaken _ _ _ _ Hx Hg) in Hn. done.
    + split; [done|]. rewrite Hx in Hsrc. injection Hsrc as ->. done.
  - eapply process_image_raise_keeps in E; [|by eexists]. rewrite Hn in E. by destruct E.
Qed.

(** The same for the whole loop. *)
Lemma process_images_removes images acc w x n :
  NoDup images ->
  Forall (fun p => is_image_name (name p) = true ∧ should_skip p = false) images ->
  (∀ p q, p ∈ images -> q ∈ images -> p `prefix_of` q -> p = q) ->
  files w !! x = Some n ->
  files (process_images webp dir_size acc images w).2 !! x = None ->
  is_Some (files (process_images webp dir_size acc images w).2 !! backup_path x) ∧
  (files w !! backup_path x = None ->
   files (process_images webp dir_size acc images w).2 !! backup_path x = Some n).
Proof.
  intros Hnd. revert acc w.
  induction Hnd as [|src more Hnin Hnd IH]; intros acc w Himgs Hpf Hx Hn.
  { cbn in Hn. congruence. }
  apply Forall_cons in Himgs as [[Hname Hskip] Himgs].
  assert (Forall (fun p => should_skip p = false) more) as Hsk
    by (eapply Forall_impl; [exact Himgs|by intros ? [_ ?]]).
  rewrite process_images_cons in *.
  pose proof (process_image_removes acc src w x n Hskip Hx) as Hturn.
  pose proof (steps_process_image webp dir_size [src] acc src w ltac:(left) Hskip) as Hst1.
  pose proof (process_image_frame webp dir_size acc src w) as [_ Hnew].
  destruct (process_image webp dir_size acc src w) as [[acc1|e] w1]; cbn [snd] in *;
    [|destruct (Hturn Hn) as (_ & ? & ?); done].
  pose proof (steps_process_images webp dir_size more acc1 more w1 ltac:(done) Hsk) as Hst.
  destruct (files w1 !! x) as [n1|] eqn:Hx1.
  - assert (x ∈ more) as Hin by (eapply steps_removed; [exact Hsk|exact Hst|by eexists|done]).
    destruct (proj1 (Forall_forall _ _) Himgs _ Hin) as [Hxn Hxs].
    destruct (steps_image_entry [src] _ _ x ltac:(by repeat constructor) Hst1 Hxn Hxs)
      as [E|E]; [|congruence].
    rewrite Hx1, Hx in E. injection E as ->.
    destruct (IH acc1 w1 Himgs) as [Hb Hc]; try done.
    { intros p q Hp Hq. apply Hpf; by right. }
    split; [done|]. intros Hfree. apply Hc.
    destruct (files w1 !! backup_path x) eqn:Hbx; [|done]. exfalso.
    destruct (Hnew (backup_path x) Hfree ltac:(by eexists)) as [Hpre|Hsuf].
    + apply backup_path_prefix in Hpre.
      assert (x = src) as -> by (apply Hpf; [by right|by left|done]). done.
    + apply with_suffix_skip in Hsuf; [|done].
      rewrite backup_path_skipped in Hsuf. done.
  - destruct (Hturn eq_refl) as (-> & [b Hb] & Hc).
    assert (∀ k, files w1 !! backup_path src = Some k ->
              files (process_images webp dir_size acc1 more w1).2 !! backup_path src = Some k)
      as Hkeep.
    { intros k. apply (steps_keeps_skipped more); [done|done|apply backup_path_skipped]. }
    split; [by erewrite Hkeep|]. intros Hfree. apply Hkeep. by apply Hc.
Qed.

(** X23. After a backup that returns, on a tree where every entry sits
    in a directory, the same holds of the new tree, an entry is at the
    backup path, and everything above it is a directory: the backup
    mirrors the directories of the source. *)
Theorem backup_mirrors_directories src w w' :
  backup src w = (Ret tt, w') -> well_formed (files w) = true ->
  well_formed (files w') = true ∧
  is_Some (files w' !! backup_path src) ∧
  ∀ q, q `prefix_of` backup_path src -> q ≠ backup_path src -> is_dir (files w') q = true.
Proof.
  intros E Hwf.
  pose proof (steps_backup [] src w) as Hst. rewrite E in Hst. cbn [snd] in Hst.
  pose proof (steps_well_formed _ _ _ Hst Hwf) as Hwf'.
  apply backup_post in E as [_ Hdone]. destruct (Hdone eq_refl) as [Hthere _ _].
  split_and!; try done.
  intros q [k Hk] Hne. apply (well_formed_ancestor _ q k); [done| |by rewrite <- Hk].
  intros ->. rewrite app_nil_r in Hk. done.
Qed.

(** X24. An empty image is never removed and never counted: whatever
    the turn of the loop does for it, the file is there afterwards as
    it was, and a turn that returns has left the totals and the map of
    renamings alone. *)
Theorem empty_image_is_kept acc src w mtime :
  files w !! src = Some (File [] mtime) ->
  is_image_name (name src) = true -> should_skip src = false ->
  files (process_image webp dir_size acc src w).2 !! src = Some (File [] mtime) ∧
  ∀ acc' w', process_image webp dir_size acc src w = (Ret acc', w') -> acc' = acc.
Proof.
  intros Hsrc Hname Hskip.
  assert (∀ acc' w', process_image webp dir_size acc src w = (Ret acc', w') ->
            acc' = acc ∧ files w ⊆ files w') as Hret.
  { intros acc' w' E. apply process_image_ret in E
      as [(? & ? & _)|(dst & d & m & out & _ & Hs & _ & Hne & _)]; [done|].
    rewrite Hsrc in Hs. by injection Hs as <- _. }
  split; [|intros acc' w' E; by apply Hret in E as [? _]].
  destruct (files (process_image webp dir_size acc src w).2 !! src) as [n|] eqn:E.
  - pose proof (steps_process_image webp dir_size [src] acc src w ltac:(left) Hskip) as Hst.
    destruct (steps_entry_change [src] _ _ src ltac:(by repeat constructor) Hst)
      as [E'|H1 H2|d m H1 H2 H3|d m H1 H2 H3]; try congruence.
    apply rewritable_not_image in H1. congruence.
  - exfalso.
    destruct (process_image webp dir_size acc src w) as [[acc'|e] w'] eqn:E'; cbn [snd] in E.
    + destruct (Hret _ _ eq_refl) as [_ Hg]. by rewrite (lookup_weaken _ _ _ _ Hsrc Hg) in E.
    + eapply process_image_raise_keeps in E'; [|by eexists]. rewrite E in E'. by destruct E'.
Qed.

(** X25. Whatever [main] returns or raises on a tree where every
    entry sits in a directory: an entry that was there before the run
    and is gone after it has an entry at its backup path, and that one
    is the entry that is gone, bytes and time, if nothing was at the
    backup path before the run. *)
Theorem main_removed_are_backed_up w x n :
  well_formed (files w) = true ->
  files w !! x = Some n ->
  files (main webp decode encode dir_size w).2 !! x = None ->
  is_Some (files (main webp decode encode dir_size w).2 !! backup_path x) ∧
  (files w !! backup_path x = None ->
   files (main webp decode encode dir_size w).2 !! backup_path x = Some n).
Proof.
  intros Hwf Hx. rewrite main_run.
  pose proof (images_of_NoDup (files w)) as Hnd.
  pose proof (images_of_images (files w)) as Himgs.
  pose proof (images_of_prefix_free (files w)) as Hpf.
  destruct (images_of (files w)) as [|i0 imgs0]; [cbn; congruence|].
  cbv beta iota zeta. set (imgs := i0 :: imgs0) in *.
  pose proof (process_images_removes imgs (mkTotals 0 0 ∅)
                (printed (MsgFound (length imgs)) w) x n Hnd Himgs
                ltac:(intros p q ? ? ?; by apply Hpf) Hx) as Hloop.
  destruct (process_images webp dir_size (mkTotals 0 0 ∅) imgs
              (printed (MsgFound (length imgs)) w)) as [[acc|e] w1]; [|exact Hloop].
  cbn [snd printed files] in Hloop.
  assert (∀ w2, rtc (tree_step []) (files w1) (files w2) -> files w2 !! x = None ->
            is_Some (files w2 !! backup_path x) ∧
            (files w !! backup_path x = None -> files w2 !! backup_path x = Some n)) as Hend.
  { intros w2 Hst Hn.
    assert (files w1 !! x = None) as Hn1.
    { destruct (files w1 !! x) eqn:E; [|done].
      apply (steps_removed [] _ _ x) in Hst; [|done|by eexists|done].
      by apply elem_of_nil in Hst. }
    destruct (Hloop Hn1) as [[b Hb] Hc].
    assert (∀ k, files w1 !! backup_path x = Some k -> files w2 !! backup_path x = Some k)
      as Hkeep.
    { intros k. apply (steps_keeps_skipped []); [done|done|apply backup_path_skipped]. }
    split; [by erewrite Hkeep|]. intros Hfree. apply Hkeep. by apply Hc. }
  destruct (negb (bool_decide (html_files_of (files w1) = [])) &&
            negb (bool_decide (renamed acc = ∅))).
  - pose proof (steps_patch_html_files decode encode [] (html_files_of (files w1))
                  (renamed acc) (printed MsgPatching w1)) as Hp.
    destruct (patch_html_files decode encode (html_files_of (files w1)) (renamed acc)
                (printed MsgPatching w1)) as [[[]|e] w2]; cbn [snd printed files] in *;
      apply Hend, Hp; apply Forall_forall; intros p Hp';
      by apply html_files_of_spec in Hp' as (_ & ? & ?).
  - cbn [snd printed files]. apply Hend, rtc_refl.
Qed.

End Safety.

(** ** The further properties on the sample inputs *)

Lemma outcome_eq {A} (r : outcome A * world) (a : outcome A) : r.1 = a -> r = (a, r.2).
Proof. destruct r as [o w]. cbn. by intros ->. Qed.

Lemma patch_html_files_raises_on_directory_witness :
  is_dir (files (fresh_run site_with_html_directory)) ["old.html"] = true ∧
  ∃ e w', patch_html_files decode_bytes encode_bytes [["index.html"]; ["old.html"]] ∅
            (fresh_run site_with_html_directory) = (Raise e, w').
Proof.
  assert (is_dir (files (fresh_run site_with_html_directory)) ["old.html"] = true) as H
    by (vm_compute; reflexivity).
  split; [exact H|].
  exact (patch_html_files_raises_on_directory decode_bytes encode_bytes
           [["index.html"]; ["old.html"]] ∅ (fresh_run site_with_html_directory)
           ["old.html"] ltac:(right; left) H).
Defined.


Lemma convert_to_webp_success_witness :
  let r := convert_to_webp webp_takes_all ["img"; "a.PNG"] (fresh_run site) in
  r = (Ret ["img"; "a.webp"], r.2) ∧
  with_suffix ["img"; "a.PNG"] ".webp" = Some ["img"; "a.webp"].
Proof.
  intros r.
  pose proof (outcome_eq r (Ret ["img"; "a.webp"]) ltac:(vm_compute; reflexivity)) as E.
  split; [exact E|].
  exact (proj1 (convert_to_webp_success webp_takes_all _ _ _ _ E)).
Defined.

Lemma main_keeps_excluded_entries_witness :
  should_skip ["backup_images"; "a.png"] = true ∧
  site_run_again !! ["backup_images"; "a.png"] = Some (File [x01] 3) ∧
  files (main webp_takes_all decode_bytes encode_bytes 4096 (fresh_run site_run_again)).2
    !! ["backup_images"; "a.png"] = Some (File [x01] 3).
Proof.
  assert (should_skip ["backup_images"; "a.png"] = true) as H1 by (vm_compute; reflexivity).
  assert (files (fresh_run site_run_again) !! ["backup_images"; "a.png"]
          = Some (File [x01] 3)) as H2 by (vm_compute; reflexivity).
  split; [exact H1|]. split; [exact H2|].
  exact (main_keeps_excluded_entries webp_takes_all decode_bytes encode_bytes 4096
           (fresh_run site_run_again) _ _ H1 H2).
Defined.

Lemma main_makes_no_image_witness :
  let w' := (main webp_takes_none decode_bytes encode_bytes 4096 (fresh_run site)).2 in
  ["img"; "a.PNG"] ∈ images_of (files w') ∧ ["img"; "a.PNG"] ∈ images_of site.
Proof.
  intros w'.
  assert (["img"; "a.PNG"] ∈ images_of (files w')) as H.
  { apply (bool_decide_unpack _). vm_compute. exact I. }
  split; [exact H|].
  exact (proj1 (main_makes_no_image webp_takes_none decode_bytes encode_bytes 4096
                  (fresh_run site) _ H)).
Defined.



Lemma main_summary_adds_up_witness :
  let w := fresh_run site in
  let r := main webp_takes_all decode_bytes encode_bytes 4096 w in
  r = (Ret tt, r.2) ∧
  ∃ l, console r.2 = MsgSummary (sum_before l) (sum_after l) :: l ++ console w.
Proof.
  intros w r.
  pose proof (outcome_eq r (Ret tt) ltac:(vm_compute; reflexivity)) as E.
  assert (images_of (files w) ≠ []) as Hne by (vm_compute; discriminate).
  split; [exact E|].
  exact (main_summary_adds_up webp_takes_all decode_bytes encode_bytes 4096 w r.2 E Hne).
Defined.

Lemma main_clean_run_leaves_no_image_witness :
  let r := main webp_takes_all decode_bytes encode_bytes 4096 (fresh_run site) in
  r = (Ret tt, r.2) ∧
  existsb is_error (console r.2) = false ∧
  images_of (files r.2) = [].
Proof.
  intros r.
  pose proof (outcome_eq r (Ret tt) ltac:(vm_compute; reflexivity)) as E.
  assert (existsb is_error (console r.2) = false) as Herr by (vm_compute; reflexivity).
  split; [exact E|]. split; [exact Herr|].
  exact (proj1 (main_clean_run_leaves_no_image webp_takes_all decode_bytes encode_bytes 4096
                  _ _ E Herr)).
Defined.


Lemma patch_html_files_spec_witness :
  well_formed site = true ∧
  ∃ w', patch_html_files decode_bytes encode_bytes [["index.html"]] ∅ (fresh_run site)
          = (Ret tt, w') ∧
        files w' !! ["img"; "a.PNG"] = site !! ["img"; "a.PNG"].
Proof.
  assert (well_formed (files (fresh_run site)) = true) as Hwf by (vm_compute; reflexivity).
  assert (∀ p, p ∈ [["index.html"]] -> is_file (files (fresh_run site)) p = true) as Hf.
  { intros p Hp. apply list_elem_of_singleton in Hp as ->. vm_compute. reflexivity. }
  split; [exact Hwf|].
  destruct (patch_html_files_spec decode_bytes encode_bytes [["index.html"]] ∅
              (fresh_run site) (NoDup_singleton _) Hwf Hf) as (w' & E & _ & Hout & _).
  exists w'. split; [exact E|]. apply Hout.
  intros Hin. apply list_elem_of_singleton in Hin. discriminate Hin.
Defined.

Lemma backup_mirrors_directories_witness :
  let r := backup ["img"; "a.PNG"] (fresh_run site) in
  r = (Ret tt, r.2) ∧ well_formed site = true ∧
  is_dir (files r.2) ["backup_images"; "img"] = true.
Proof.
  intros r.
  pose proof (outcome_eq r (Ret tt) ltac:(vm_compute; reflexivity)) as E.
  assert (well_formed (files (fresh_run site)) = true) as Hwf by (vm_compute; reflexivity).
  split; [exact E|]. split; [exact Hwf|].
  destruct (backup_mirrors_directories _ _ _ E Hwf) as (_ & _ & Hd).
  apply Hd.
  - exists ["a.PNG"]. reflexivity.
  - intros H. apply (f_equal length) in H. vm_compute in H. discriminate H.
Defined.

Lemma empty_image_is_kept_witness :
  let w := fresh_run site_empty_image in
  files w !! ["e.png"] = Some (File [] 1) ∧
  is_image_name (name ["e.png"]) = true ∧ should_skip ["e.png"] = false ∧
  files (process_image webp_takes_all 4096 (mkTotals 0 0 ∅) ["e.png"] w).2 !! ["e.png"]
    = Some (File [] 1).
Proof.
  intros w.
  assert (files w !! ["e.png"] = Some (File [] 1)) as H1 by (vm_compute; reflexivity).
  assert (is_image_name (name ["e.png"]) = true) as H2 by (vm_compute; reflexivity).
  assert (should_skip ["e.png"] = false) as H3 by (vm_compute; reflexivity).
  split; [exact H1|]. split; [exact H2|]. split; [exact H3|].
  exact (proj1 (empty_image_is_kept webp_takes_all 4096 (mkTotals 0 0 ∅) ["e.png"] w 1
                  H1 H2 H3)).
Defined.

Lemma main_removed_are_backed_up_witness :
  let w := fresh_run site in
  let w' := (main webp_takes_all decode_bytes encode_bytes 4096 w).2 in
  well_formed site = true ∧
  files w !! ["img"; "a.PNG"] = Some (File [x89; x50; x4e; x47] 5) ∧
  files w' !! ["img"; "a.PNG"] = None ∧
  files w' !! backup_path ["img"; "a.PNG"] = Some (File [x89; x50; x4e; x47] 5).
Proof.
  intros w w'.
  assert (well_formed (files w) = true) as Hwf by (vm_compute; reflexivity).
  assert (files w !! ["img"; "a.PNG"] = Some (File [x89; x50; x4e; x47] 5)) as Hx
    by (vm_compute; reflexivity).
  assert (files w' !! ["img"; "a.PNG"] = None) as Hn by (vm_compute; reflexivity).
  assert (files w !! backup_path ["img"; "a.PNG"] = None) as Hfree
    by (vm_compute; reflexivity).
  split; [exact Hwf|]. split; [exact Hx|]. split; [exact Hn|].
  exact (proj2 (main_removed_are_backed_up webp_takes_all decode_bytes encode_bytes 4096
                  w _ _ Hwf Hx Hn) Hfree).
Defined.

